(** * Comp trees of the query editors: MongoQuery and LibraryQuery

    A shallow embedding of two query configuration nodes of the application
    builder, [MongoQuery] (a tagged-union composite over the Mongo commands)
    and [LibraryQuery] with its dynamic map of inputs [InputsComp], together
    with the properties of their reduction, serialisation and property views.

    A JavaScript object used as a map is the finite map of its own
    properties, and what it inherits from its prototype is modelled where the
    code reads or assigns a name that is not an own key.  Objects with
    identity (the nodes of the tree) live in a store that only ever grows, so
    that reference equality of nodes is equality of store addresses. *)

From stdpp Require Import gmap strings list fin_maps pretty.

Set Warnings "-register-all".

(** ** JavaScript values *)

Module JS.

(** The values that travel through actions and JSON documents.  Numbers are
    only compared with zero here, so integers stand for them. *)
Inductive JSValue :=
| JUndefined
| JNull
| JBool (b : bool)
| JNum (n : Z)
| JStr (s : string)
| JArr (l : list JSValue)
| JObj (m : gmap string JSValue).

(** [v === undefined || v === null] *)
Definition nullish (v : JSValue) : bool :=
  match v with
  | JUndefined | JNull => true
  | _ => false
  end.

(** Truthiness, as tested by [if (v)] and [!v]. *)
Definition truthy (v : JSValue) : bool :=
  match v with
  | JUndefined | JNull => false
  | JBool b => b
  | JNum n => negb (n =? 0)%Z
  | JStr s => negb (String.eqb s "")
  | JArr _ | JObj _ => true
  end.

(** [v[k]]: reading a property of [undefined] or [null] throws a TypeError
    ([None]); a missing property reads as [undefined].  The keys read in this
    development are never array indices nor ["length"], so primitives and
    arrays have none of them. *)
Definition get (v : JSValue) (k : string) : option JSValue :=
  match v with
  | JUndefined | JNull => None
  | JObj m => Some (default JUndefined (m !! k))
  | _ => Some JUndefined
  end.

(** [v?.[k]] *)
Definition get_opt (v : JSValue) (k : string) : JSValue :=
  default JUndefined (get v k).

(** [v ?? d] *)
Definition coalesce (v d : JSValue) : JSValue :=
  if nullish v then d else v.

(** The own property [k] of an object, if it has one.  The keys looked up
    in a value that may be an array or a string are field names of schemas,
    never an index nor ["length"], so arrays and primitives have none of
    them. *)
Definition hasOwn (v : JSValue) (k : string) : option JSValue :=
  match v with
  | JObj m => m !! k
  | _ => None
  end.

(** The elements of a list under their indices ["0"], ["1"], ... *)
Definition indexed {A} (l : list A) : gmap string A :=
  list_to_map (imap (λ i x, (pretty i, x)) l).

(** The characters of a string, each a string of length one; a character
    stands for one code unit. *)
Fixpoint characters (s : string) : list JSValue :=
  match s with
  | EmptyString => []
  | String a s' => JStr (String a EmptyString) :: characters s'
  end.

(** The own enumerable string-keyed properties of a value, which [{...v}]
    copies and [Object.entries(v)] lists: the properties of an object, the
    elements of an array under their indices, the characters of a string
    under their indices, and none for the other primitives. *)
Definition spread (v : JSValue) : gmap string JSValue :=
  match v with
  | JObj m => m
  | JArr l => indexed l
  | JStr s => indexed (characters s)
  | _ => ∅
  end.

(** [Object.entries(v)] *)
Definition entries (v : JSValue) : list (string * JSValue) :=
  map_to_list (spread v).

(** The names that every plain object inherits from [Object.prototype].
    Read on an object that has no own property of that name, each gives a
    function, and [__proto__] gives [Object.prototype] itself: a truthy value
    that is none of the values stored in the object. *)
Definition ObjectPrototype : list string :=
  [ "constructor"; "__defineGetter__"; "__defineSetter__"; "hasOwnProperty";
    "__lookupGetter__"; "__lookupSetter__"; "isPrototypeOf";
    "propertyIsEnumerable"; "toString"; "valueOf"; "__proto__";
    "toLocaleString" ].

(** lodash [includes(strings, v)]: strict equality with one of the strings. *)
Definition includes (l : list string) (v : JSValue) : bool :=
  match v with
  | JStr s => bool_decide (s ∈ l)
  | _ => false
  end.

End JS.
Export JS.

(** ** Actions *)

Module Action.

Inductive CompActionTypes :=
| CHANGE_VALUE
| CUSTOM
| OTHER (name : string).

(** Modelled from the spec: the action constructors of the core package are
    absent from the sources; per the action boundary an action is
    [{ targetPath?, kind, payload }].  [a_value = None] is an action object
    without a [value] property. *)
Record CompAction := {
  a_type : CompActionTypes;
  a_path : list string;
  a_value : option JSValue;
}.

Definition changeValueAction (value : JSValue) : CompAction :=
  {| a_type := CHANGE_VALUE; a_path := []; a_value := Some value |}.

Definition wrapChildAction (childName : string) (action : CompAction) : CompAction :=
  {| a_type := a_type action; a_path := childName :: a_path action;
     a_value := a_value action |}.

Definition changeChildAction (childName : string) (value : JSValue) : CompAction :=
  wrapChildAction childName (changeValueAction value).

Definition customAction (value : JSValue) : CompAction :=
  {| a_type := CUSTOM; a_path := []; a_value := Some value |}.

(** A custom action of the given type addressed to the receiving node. *)
Definition isMyCustomAction (action : CompAction) (type : string) : bool :=
  match a_type action, a_path action, a_value action with
  | CUSTOM, [], Some v =>
      match get_opt v "type" with
      | JStr t => String.eqb t type
      | _ => false
      end
  | _, _, _ => false
  end.

End Action.
Export Action.

(** ** MongoQuery *)

Module MongoQuery.

Definition CommandOptions : list (string * string) :=
  [ ("Find Document(s)", "FIND");
    ("Insert Document(s)", "INSERT");
    ("Update Document(s)", "UPDATE");
    ("Delete Document(s)", "DELETE");
    ("Count", "COUNT");
    ("Distinct", "DISTINCT");
    ("Aggregate", "AGGREGATE");
    ("Raw", "RAW") ].

Definition LimitOptions : list (string * string) :=
  [ ("Single Document", "SINGLE");
    ("All Matching Documents", "ALL") ].

(** The controls a command schema is made of.  [withPropertyViewFn] only
    attaches a view to a control, so a schema field is its control. *)
Inductive Control :=
| ParamsJsonControl
| ParamsPositiveNumberControl
| ParamsStringControl
| dropdownControl (options : list (string * string)) (defaultValue : string).

(** The initial values of the parameter controls, whose definitions are not
    part of the sources. *)
Class ControlDefaults := {
  ParamsJsonControl_default : JSValue;
  ParamsPositiveNumberControl_default : JSValue;
  ParamsStringControl_default : JSValue;
}.

Abbreviation Schema := (list (string * Control)) (only parsing).

Definition CommandMap_entries : list (string * Schema) :=
  [ ("FIND",
      [ ("query", ParamsJsonControl);
        ("projection", ParamsJsonControl);
        ("limit", ParamsPositiveNumberControl);
        ("skip", ParamsPositiveNumberControl);
        ("sort", ParamsJsonControl) ]);
    ("INSERT",
      [ ("documents", ParamsJsonControl) ]);
    ("UPDATE",
      [ ("query", ParamsJsonControl);
        ("update", ParamsJsonControl);
        ("limit", dropdownControl LimitOptions "SINGLE") ]);
    ("DELETE",
      [ ("query", ParamsJsonControl);
        ("limit", dropdownControl LimitOptions "SINGLE") ]);
    ("COUNT",
      [ ("query", ParamsJsonControl) ]);
    ("DISTINCT",
      [ ("query", ParamsJsonControl);
        ("key", ParamsStringControl) ]);
    ("AGGREGATE",
      [ ("arrayPipelines", ParamsJsonControl);
        ("limit", ParamsPositiveNumberControl) ]);
    ("RAW",
      [ ("command", ParamsJsonControl) ]) ].

Definition CommandMap : gmap string Schema := list_to_map CommandMap_entries.

(** The node: the discriminator leaf [compType], the payload child [comp]
    (its fields in schema order) and the always-present field [collection]. *)
Record MongoQuery := {
  compType : JSValue;
  comp : list (string * JSValue);
  collection : JSValue;
}.

Section Model.
Context `{!ControlDefaults}.

Definition control_default (c : Control) : JSValue :=
  match c with
  | ParamsJsonControl => ParamsJsonControl_default
  | ParamsPositiveNumberControl => ParamsPositiveNumberControl_default
  | ParamsStringControl => ParamsStringControl_default
  | dropdownControl _ defaultValue => JStr defaultValue
  end.

(** Modelled from the spec: [buildQueryCommand] is absent from the sources; it
    makes a Fixed Composite, which builds one child per field of the schema,
    each initialized with that field's sub-value or the constructor's default
    if absent. *)
Definition buildQueryCommand (schema : Schema) (value : JSValue)
  : list (string * JSValue) :=
  (λ f, (f.1, default (control_default f.2) (hasOwn value f.1))) <$> schema.

(** Modelled from the spec: [withTypeAndChildren] is absent from the sources;
    it is given the discriminator-to-schema table, the default discriminator
    and the always-present fields, and the payload's schema is wholly
    determined by the discriminator.  A discriminator without a registered
    schema has no constructor to call ([None]). *)
Definition withTypeAndChildren_parse (compMap : gmap string Schema)
    (defaultCompType : string) (value : JSValue) : option MongoQuery :=
  match coalesce (get_opt value "compType") (JStr defaultCompType) with
  | JStr t =>
      schema ← compMap !! t;
      Some {| compType := JStr t;
              comp := buildQueryCommand schema (get_opt value "comp");
              collection := default ParamsStringControl_default
                              (hasOwn value "collection") |}
  | _ => None
  end.

Definition MongoQueryTmp_parse : JSValue → option MongoQuery :=
  withTypeAndChildren_parse CommandMap "FIND".

(** Replace the value of the field [k] of a payload; [None] when the payload
    has no such field. *)
Fixpoint set_field (k : string) (v : JSValue) (fields : list (string * JSValue))
  : option (list (string * JSValue)) :=
  match fields with
  | [] => None
  | (k', v') :: rest =>
      if String.eqb k' k then Some ((k', v) :: rest)
      else cons (k', v') <$> set_field k v rest
  end.

(** Modelled from the spec: the reduction of the tagged-union composite is
    absent from the sources.  An action that replaces the whole value rebuilds
    the node from that value (the discriminator and the payload together); an
    action routed to the payload or to the extra field changes that child;
    routing to an unknown key is an error ([None]); every other action is a
    no-op. *)
Definition reduce (this : MongoQuery) (action : CompAction) : option MongoQuery :=
  match a_path action, a_type action with
  | [], CHANGE_VALUE => MongoQueryTmp_parse (default JUndefined (a_value action))
  | [], _ => Some this
  | ["collection"], CHANGE_VALUE =>
      Some {| compType := compType this; comp := comp this;
              collection := default JUndefined (a_value action) |}
  | ["comp"; k], CHANGE_VALUE =>
      fields ← set_field k (default JUndefined (a_value action)) (comp this);
      Some {| compType := compType this; comp := fields;
              collection := collection this |}
  | "collection" :: _, _ => Some this
  | "comp" :: k :: _, _ =>
      if bool_decide (k ∈ (comp this).*1) then Some this else None
  | _, _ => None
  end.

End Model.

(** [isWrite(action)] *)
Definition isWrite (this : MongoQuery) (action : CompAction) : option bool :=
  match a_value action with
  | None => Some false
  | Some value =>
      c ← get value "compType";
      Some (includes ["INSERT"; "UPDATE"; "DELETE"; "RAW"] c)
  end.

(** The action dispatched by the command dropdown of [getPropertyView]:
    [changeValueAction({ compType: value, comp: {} })]. *)
Definition onChange_Commands (value : string) : CompAction :=
  changeValueAction
    (JObj (<["compType" := JStr value]> (<["comp" := JObj ∅]> ∅))).

End MongoQuery.

(** ** The store of nodes *)

Module Store.

(** Addresses of the store. *)
Abbreviation loc := nat (only parsing).

(** A declared input.  The code reads [name] as a property key and hands
    [description] on as it is, so a description may be any value, [undefined]
    when the item has none. *)
Record InputItem := {
  name : string;
  description : JSValue;
}.

(** The leaf classes: [valueComp(d)], [stateComp(d)] and [JSONValueControl]. *)
Inductive LeafClass :=
| valueComp (defaultValue : JSValue)
| stateComp (defaultValue : JSValue)
| JSONValueControl.

(** A constructor found in a children map. *)
Inductive Ctor :=
| CLeaf (c : LeafClass)
| CInputsComp.

(** The objects with identity.  An [InputsComp] keeps the value it was
    constructed with ([this.params.value]) and the declared inputs; a
    [LibraryQuery] keeps [isReady] and the value it was constructed with. *)
Inductive obj :=
| OLeaf (c : LeafClass) (value : JSValue)
| OInputsComp (children : gmap string loc) (params_value : JSValue)
    (inputs : list InputItem)
| OLibraryQuery (children : gmap string loc) (isReady : bool) (value : JSValue).

Abbreviation heap := (list obj) (only parsing).

Definition obj_children (o : obj) : gmap string loc :=
  match o with
  | OLeaf _ _ => ∅
  | OInputsComp children _ _ => children
  | OLibraryQuery children _ _ => children
  end.

Definition with_children (o : obj) (children : gmap string loc) : obj :=
  match o with
  | OLeaf c v => OLeaf c v
  | OInputsComp _ pv inputs => OInputsComp children pv inputs
  | OLibraryQuery _ isReady value => OLibraryQuery children isReady value
  end.

(** The failures of a run.  [Unmodelled] is not an error of the program: it
    marks a run that leaves the part of JavaScript modelled here, by coercing
    a value that is not a string to a property key, or by assigning a new
    property to an object whose prototype is a class that is not part of the
    sources.  Nothing is stated about such runs. *)
Inductive Error :=
| RoutingError (key : string)
| TypeError
| Unmodelled.

Inductive result (A : Type) :=
| Ok (a : A)
| Err (e : Error).
Arguments Ok {A} a.
Arguments Err {A} e.

(** Computations that read the store and allocate in it. *)
Definition M (A : Type) := heap → result (A * heap).

Definition ret {A} (a : A) : M A := λ h, Ok (a, h).

Definition bind {A B} (m : M A) (f : A → M B) : M B :=
  λ h, match m h with
       | Ok (a, h') => f a h'
       | Err e => Err e
       end.

Definition fail {A} (e : Error) : M A := λ _, Err e.

Definition alloc (o : obj) : M loc := λ h, Ok (length h, h ++ [o]).

Definition read (l : loc) : M obj :=
  λ h, match h !! l with
       | Some o => Ok (o, h)
       | None => Err TypeError
       end.

Definition getHeap : M heap := λ h, Ok (h, h).


End Store.
Export Store.

Notation "x <- m ;; k" := (bind m (λ x, k))
  (at level 100, m at next level, right associativity).

(** The translations and the initial value of a [JSONValueControl] come from
    modules that are not part of the sources. *)
Class Externals := {
  trans : string → string;
  JSONValueControl_default : JSValue;
}.

(** ** Construction of children *)

Module Multi.
Section Model.
Context `{!Externals}.

Definition leaf_default (c : LeafClass) : JSValue :=
  match c with
  | valueComp d => d
  | stateComp d => d
  | JSONValueControl => JSONValueControl_default
  end.

(** Modelled from the spec: the leaf classes are absent from the sources; a
    Value Node holds the value it is given, or its declared default when the
    value is absent. *)
Definition new_leaf (c : LeafClass) (value : option JSValue) : M loc :=
  alloc (OLeaf c (default (leaf_default c) value)).

(** One child per entry, in the order of the entries:
    [childrenMap[key] = new ...]. *)
Fixpoint build_children {X} (mk : string → X → M loc) (l : list (string * X))
    (acc : gmap string loc) : M (gmap string loc) :=
  match l with
  | [] => ret acc
  | (k, x) :: rest =>
      c <- mk k x ;;
      build_children mk rest (<[k := c]> acc)
  end.

(** [InputsComp.parseChildrenFromValue]: one [JSONValueControl] per entry of
    [params.value ?? {}], constructed with the entry's value and stored by
    [childrenMap[t[0]] = new JSONValueControl(...)].  For the key [__proto__]
    that assignment makes the new control the prototype of [childrenMap] and
    adds no key: the control is constructed and is no child, and the other
    entries become own keys as they do without it.  In the sources the
    children of a node are read by name only in [getPropertyView], for the
    declared inputs, and a constructed node declares none. *)
Definition InputsComp_parseChildrenFromValue (value : JSValue)
  : M (gmap string loc) :=
  children <- build_children (λ _ v, new_leaf JSONValueControl (Some v))
                (entries (coalesce value (JObj ∅))) ∅ ;;
  ret (delete "__proto__" children).

(** [new InputsComp(params)]: the children parsed by the super constructor,
    [this.params = params], [inputs = []]. *)
Definition new_InputsComp (value : JSValue) : M loc :=
  children <- InputsComp_parseChildrenFromValue value ;;
  alloc (OInputsComp children value []).

Definition construct (ctor : Ctor) (value : option JSValue) : M loc :=
  match ctor with
  | CLeaf c => new_leaf c value
  | CInputsComp => new_InputsComp (default JUndefined value)
  end.

(** Modelled from the spec: [parseChildrenFromValueAndChildrenMap] is absent
    from the sources; given a mapping from field name to node constructor and
    an input value shaped as an object, it builds one child per field, each
    initialized with that field's sub-value or the constructor's default if
    absent. *)
Definition parseChildrenFromValueAndChildrenMap (value : JSValue)
    (childrenMap : gmap string Ctor) : M (gmap string loc) :=
  build_children (λ k ctor, construct ctor (hasOwn value k))
    (map_to_list childrenMap) ∅.

(** Modelled from the spec: [setFieldsNoTypeCheck] is absent from the sources;
    a reduction returns a new node and never mutates in place, and the callers
    use only the returned object, so the result is a newly allocated copy of
    the object with the given fields replaced. *)
Definition setFieldsNoTypeCheck (this : obj) (fields : obj → obj) : M loc :=
  alloc (fields this).

(** Modelled from the spec: serialisation of a leaf is absent from the
    sources; a Value Node gives back the stored value unchanged, and a state
    leaf is transient and not part of the serialised form ([None]). *)
Definition leaf_toJsonValue (h : heap) (l : loc) : option JSValue :=
  match h !! l with
  | Some (OLeaf (stateComp _) _) => None
  | Some (OLeaf _ v) => Some v
  | _ => None
  end.

(** Modelled from the spec: [simpleMultiComp]'s [toJsonValue] is absent from
    the sources; the aggregate value of a composite is the map of its
    children's values. *)
Definition InputsComp_toJsonValue (h : heap) (l : loc) : JSValue :=
  JObj (omap (leaf_toJsonValue h) (default ∅ (obj_children <$> h !! l))).

Definition child_toJsonValue (h : heap) (l : loc) : option JSValue :=
  match h !! l with
  | Some (OLeaf _ _) => leaf_toJsonValue h l
  | Some (OInputsComp _ _ _) => Some (InputsComp_toJsonValue h l)
  | _ => None
  end.

Definition super_toJsonValue (h : heap) (children : gmap string loc)
  : gmap string JSValue :=
  omap (child_toJsonValue h) children.

End Model.
End Multi.
Export Multi.

(** ** Views *)

Module View.

(** The elements handed to the rendering layer.  [VPropertyView] is the
    editor a control renders for itself, with the options it was given. *)
Inductive View :=
| VNull
| VText (v : JSValue)
| VElem (tag : string) (style : list (string * string)) (children : list View)
| VFragment (key : string) (child : View)
| VPropertyView (comp : loc) (label : string) (tooltip : JSValue)
    (placement : string)
| VArray (items : list View).

End View.
Export View.

(** ** InputsComp *)

Module InputsComp.
Section Model.
Context `{!Externals}.

(** The placeholder of an empty list of inputs. *)
Definition NoInputs : View :=
  VElem "QueryConfigWrapper" []
    [ VElem "QueryConfigLabel" [] [];
      VElem "NoInputsWrapper" [] [VText (JStr (trans "queryLibrary.noInput"))] ].

(** The element rendered for one declared input.  [this.children[name]] is
    the child when [name] is a key of the children; when it is not, the read
    goes to [Object.prototype]: for a name inherited from it the value read is
    truthy, so the guard [!child] does not fire, and it has no [propertyView]
    to call, which throws a TypeError ([None]); for every other name the read
    gives [undefined] and the element is [null]. *)
Definition renderInput (children : gmap string loc) (item : InputItem)
  : option View :=
  match children !! name item with
  | Some child =>
      Some (VFragment (name item)
              (VPropertyView child (name item) (description item) "bottom"))
  | None =>
      if bool_decide (name item ∈ ObjectPrototype) then None else Some VNull
  end.

(** [getPropertyView()]; [None] when rendering throws. *)
Definition getPropertyView (children : gmap string loc)
    (inputs : list InputItem) : option View :=
  if decide (length inputs = 0) then Some NoInputs
  else VArray <$> mapM (renderInput children) inputs.

(** The object [childrenMap] while [setInputs] fills it: its own keys, and
    whether its prototype is still [Object.prototype]. *)
Record ChildrenMap := {
  cm_own : gmap string Ctor;
  cm_plain : bool;
}.

(** [childrenMap[name] = JSONValueControl].  For the name [__proto__] the
    assignment makes the class the prototype of [childrenMap] and adds no
    key.  Any other name becomes an own key when it is one already or when
    the prototype is [Object.prototype], all of whose other properties are
    writable.  Once the prototype is the class, a new name is looked up in it:
    [length] and [name] are own properties of every function and are not
    writable, so assigning them throws a TypeError in strict code; what the
    assignment of another new name does depends on the static members of the
    class, which is not part of the sources. *)
Definition assign (m : ChildrenMap) (k : string) : result ChildrenMap :=
  if String.eqb k "__proto__" then Ok {| cm_own := cm_own m; cm_plain := false |}
  else if cm_plain m || bool_decide (is_Some (cm_own m !! k)) then
    Ok {| cm_own := <[k := CLeaf JSONValueControl]> (cm_own m);
          cm_plain := cm_plain m |}
  else if bool_decide (k ∈ ["length"; "name"]) then Err TypeError
  else Err Unmodelled.

(** [inputs.forEach(({ name }) => childrenMap[name] = JSONValueControl)] *)
Fixpoint fill (m : ChildrenMap) (inputs : list InputItem) : result ChildrenMap :=
  match inputs with
  | [] => Ok m
  | item :: rest =>
      match assign m (name item) with
      | Ok m' => fill m' rest
      | Err e => Err e
      end
  end.

(** The constructor map built by [setInputs], of which the parser of children
    uses the own keys. *)
Definition setInputs_childrenMap (inputs : list InputItem)
  : result (gmap string Ctor) :=
  match fill {| cm_own := ∅; cm_plain := true |} inputs with
  | Ok m => Ok (cm_own m)
  | Err e => Err e
  end.

(** [setInputs(inputs)] *)
Definition setInputs (this : loc) (inputs : list InputItem) : M loc :=
  o <- read this ;;
  h <- getHeap ;;
  match o with
  | OInputsComp _ params_value _ =>
      match setInputs_childrenMap inputs with
      | Ok childrenMap =>
          let value :=
            JObj (spread (InputsComp_toJsonValue h this) ∪ spread params_value) in
          children <- parseChildrenFromValueAndChildrenMap value childrenMap ;;
          setFieldsNoTypeCheck o (λ _, OInputsComp children params_value inputs)
      | Err e => fail e
      end
  | _ => fail TypeError
  end.

End Model.
End InputsComp.

(** ** LibraryQuery *)

Module LibraryQuery.
Section Model.
Context `{!Externals}.

Definition childrenMap : gmap string Ctor :=
  <["libraryQueryId" := CLeaf (valueComp (JStr ""))]>
  (<["libraryQueryRecordId" := CLeaf (valueComp (JStr "latest"))]>
  (<["inputs" := CInputsComp]>
  (<["error" := CLeaf (stateComp (JStr ""))]> ∅))).

(** [new LibraryQuery(params)]: [isReady = false], [this.value = params.value]. *)
Definition new (value : JSValue) : M loc :=
  children <- parseChildrenFromValueAndChildrenMap value childrenMap ;;
  alloc (OLibraryQuery children false value).

(** [toJsonValue()] *)
Definition toJsonValue (h : heap) (this : loc) : JSValue :=
  match h !! this with
  | Some (OLibraryQuery children isReady value) =>
      if isReady then JObj (super_toJsonValue h children)
      else JObj (<["inputs" := get_opt value "inputs"]>
                   (super_toJsonValue h children))
  | _ => JUndefined
  end.

(** An element of the declared inputs, as [({ name, description }) => ...]
    reads it: destructuring [null] or [undefined] throws a TypeError; [name]
    is declared a string and is used as a property key; [description] is
    whatever the element has, [undefined] when it has none. *)
Definition as_InputItem (v : JSValue) : result InputItem :=
  match get v "name" with
  | None => Err TypeError
  | Some (JStr n) => Ok {| name := n; description := get_opt v "description" |}
  | Some _ => Err Unmodelled
  end.

(** The elements in order; the first that fails decides. *)
Fixpoint as_InputItems (items : list JSValue) : result (list InputItem) :=
  match items with
  | [] => Ok []
  | v :: rest =>
      match as_InputItem v with
      | Ok item =>
          match as_InputItems rest with
          | Ok inputs => Ok (item :: inputs)
          | Err e => Err e
          end
      | Err e => Err e
      end
  end.

(** [action.value?.dsl?.["inputs"] ?? []], as [setInputs] takes it: calling
    [forEach] on what is not an array throws a TypeError. *)
Definition action_inputs (action : CompAction) : result (list InputItem) :=
  match coalesce
          (get_opt (get_opt (default JUndefined (a_value action)) "dsl") "inputs")
          (JArr []) with
  | JArr items => as_InputItems items
  | _ => Err TypeError
  end.

(** The first branch of [reduce], on a node with the given fields: the
    [queryLibraryUpdate] action.  Reading [setInputs] on a missing [inputs]
    child throws before the argument is looked at. *)
Definition reduce_queryLibraryUpdate (children : gmap string loc)
    (isReady : bool) (value : JSValue) (action : CompAction) : M loc :=
  match children !! "inputs" with
  | None => fail TypeError
  | Some i =>
      match action_inputs action with
      | Ok items =>
          inputs <- InputsComp.setInputs i items ;;
          setFieldsNoTypeCheck (OLibraryQuery children isReady value)
            (λ _, OLibraryQuery (<["inputs" := inputs]> children) true value)
      | Err e => fail e
      end
  end.

(** Modelled from the spec: the reduction inherited from [simpleMultiComp] and
    the reduction of the leaves are absent from the sources.  A change-value
    action returns a new Value Node holding the new value at a leaf and
    rebuilds a composite fully from the new value; every other action
    addressed to the node itself is a no-op that returns the node. *)
Definition super_reduce (this : loc) (o : obj) (action : CompAction) : M loc :=
  match a_type action with
  | CHANGE_VALUE =>
      let value := default JUndefined (a_value action) in
      match o with
      | OLeaf c _ => setFieldsNoTypeCheck o (λ _, OLeaf c value)
      | OInputsComp _ _ _ => new_InputsComp value
      | OLibraryQuery _ _ _ => new value
      end
  | _ => ret this
  end.

(** An action addressed to the node itself; [LibraryQuery] overrides
    [reduce] for its custom action and defers to [super.reduce] otherwise. *)
Definition reduce_here (this : loc) (o : obj) (action : CompAction) : M loc :=
  match o with
  | OLibraryQuery children isReady value =>
      if isMyCustomAction action "queryLibraryUpdate"
      then reduce_queryLibraryUpdate children isReady value action
      else super_reduce this o action
  | _ => super_reduce this o action
  end.

(** Modelled from the spec: splicing a reduced child back is absent from the
    sources; the result is a new composite with all other children
    referentially unchanged, and a pointer-equal child is a no-op. *)
Definition setChild (this : loc) (o : obj) (k : string) (c c' : loc) : M loc :=
  if decide (c' = c) then ret this
  else setFieldsNoTypeCheck o (λ o, with_children o (<[k := c']> (obj_children o))).

(** Modelled from the spec: routing is absent from the sources; an action that
    carries a child key is delegated to that child's [reduce], routing to a
    nonexistent child key is an error, and an unrecognized action at a leaf
    is a no-op. *)
Fixpoint reduce_path (path : list string) (type : CompActionTypes)
    (value : option JSValue) (this : loc) : M loc :=
  o <- read this ;;
  match path with
  | [] => reduce_here this o {| a_type := type; a_path := []; a_value := value |}
  | k :: rest =>
      match o with
      | OLeaf _ _ => ret this
      | _ =>
          match obj_children o !! k with
          | None => fail (RoutingError k)
          | Some c =>
              c' <- reduce_path rest type value c ;;
              setChild this o k c c'
          end
      end
  end.

(** [comp.reduce(action)], dispatched on the class of the receiving node. *)
Definition reduce (action : CompAction) (this : loc) : M loc :=
  reduce_path (a_path action) (a_type action) (a_value action) this.

(** The value held by a leaf: [children.k.getView()]. *)
Definition child_view (h : heap) (children : gmap string loc) (k : string)
  : option JSValue :=
  c ← children !! k;
  match h !! c with
  | Some (OLeaf _ v) => Some v
  | _ => None
  end.

Definition ErrorMessage (message : JSValue) : View :=
  VElem "QueryConfigWrapper" []
    [ VElem "QueryConfigLabel" [] [];
      VElem "NoInputsWrapper" [("color", "#ff4d4f")] [VText message] ].

Definition Spin : View :=
  VElem "Spin" [] [VElem "LoadingOutlined" [("fontSize", "24")] []].

(** [getInputsView] of the property view, for the record [info] selected from
    the store of library records ([undefined] while it has not arrived);
    [None] when it throws. *)
Definition getInputsView (h : heap) (this : loc) (info : JSValue) : option View :=
  o ← h !! this;
  let children := obj_children o in
  queryId ← child_view h children "libraryQueryId";
  if negb (truthy queryId) then Some VNull
  else if negb (truthy info) then
    error ← child_view h children "error";
    if truthy error then Some (ErrorMessage error) else Some Spin
  else
    i ← children !! "inputs";
    oi ← h !! i;
    match oi with
    | OInputsComp ch _ inputs => InputsComp.getPropertyView ch inputs
    | _ => None
    end.

(** The action that reaches the node when the fetch reports a failure:
    [children.error.dispatchChangeValueAction(error.message)], wrapped by the
    dispatch the [error] child was bound to. *)
Definition onErrorCallback (message : string) : CompAction :=
  wrapChildAction "error" (changeValueAction (JStr message)).

(** The action dispatched by the property view when the selected record
    changes. *)
Definition queryLibraryUpdate (info : JSValue) : CompAction :=
  customAction
    (JObj (<["type" := JStr "queryLibraryUpdate"]> (<["dsl" := info]> ∅))).

End Model.
End LibraryQuery.

(** ** Specification vocabulary *)

Module Spec.
Section Model.
Context `{!Externals}.

(** The store [h'] is [h] followed by newly allocated objects, each of which
    satisfies [P]: no object of [h] has been changed or removed. *)
Definition allocates (P : obj → Prop) (h h' : heap) : Prop :=
  ∃ k, h' = h ++ k ∧ Forall P k.

(** The own entries of a value that become children of an [InputsComp]. *)
Definition child_entries (value : JSValue) : gmap string JSValue :=
  delete "__proto__" (spread (coalesce value (JObj ∅))).

(** The children [ch] are [JSONValueControl] leaves holding exactly the
    values [vals]. *)
Definition holds (h : heap) (ch : gmap string loc) (vals : gmap string JSValue)
  : Prop :=
  (∀ k, is_Some (ch !! k) ↔ is_Some (vals !! k)) ∧
  ∀ k c, ch !! k = Some c →
    ∃ v, vals !! k = Some v ∧ h !! c = Some (OLeaf JSONValueControl v).

(** The node at [r] is what the constructor [ctor] makes of [value]. *)
Definition constructed (ctor : Ctor) (value : option JSValue) (r : loc)
    (h : heap) : Prop :=
  match ctor with
  | CLeaf c => h !! r = Some (OLeaf c (default (leaf_default c) value))
  | CInputsComp =>
      ∃ ch, h !! r = Some (OInputsComp ch (default JUndefined value) []) ∧
            holds h ch (child_entries (default JUndefined value))
  end.

Definition is_leaf (h : heap) (l : loc) : Prop :=
  ∃ c v, h !! l = Some (OLeaf c v).

Definition is_InputsComp (h : heap) (l : loc) : Prop :=
  ∃ ch pv inputs, h !! l = Some (OInputsComp ch pv inputs).

(** A [LibraryQuery] node as its constructor and its reduction leave it: the
    four children of its children map, of their declared classes. *)
Definition wf_LibraryQuery (h : heap) (l : loc) : Prop :=
  ∃ ch isReady value cq cr ci ce,
    h !! l = Some (OLibraryQuery ch isReady value) ∧
    ch !! "libraryQueryId" = Some cq ∧ is_leaf h cq ∧
    ch !! "libraryQueryRecordId" = Some cr ∧ is_leaf h cr ∧
    ch !! "inputs" = Some ci ∧ is_InputsComp h ci ∧
    ch !! "error" = Some ce ∧ is_leaf h ce.

(** A JSON value matching the schema of [LibraryQuery]. *)
Definition LibraryQuery_value (queryId recordId : string)
    (inputs : gmap string JSValue) : JSValue :=
  JObj (<["libraryQueryId" := JStr queryId]>
       (<["libraryQueryRecordId" := JStr recordId]>
       (<["inputs" := JObj inputs]> ∅))).

(** The serialised inputs once the declared inputs are known: one entry per
    declared name, with the value given for that name, else the default of
    the control. *)
Definition declared_inputs (given : gmap string JSValue)
    (inputs : list InputItem) : gmap string JSValue :=
  list_to_map
    ((λ item, (name item,
               default JSONValueControl_default (given !! name item)))
       <$> inputs).

(** The outcome of a step that either returns the receiver with the store
    untouched or returns a newly allocated node. *)
Definition same_or_new (this : loc) (h : heap) (r : loc) (h' : heap) : Prop :=
  (r = this ∧ h' = h) ∨ length h ≤ r < length h'.

(** The library record that declares the given inputs. *)
Definition dsl_of_inputs (inputs : list InputItem) : JSValue :=
  JObj {[ "inputs" :=
    JArr ((λ i, JObj (<["name" := JStr (name i)]>
                     (<["description" := description i]> ∅))) <$> inputs) ]}.

End Model.
End Spec.
Export Spec.

(** ** Effects of the property view *)

Module PropertyView.

(** The effect on [queryId] and [recordId]: the request for the record that
    is dispatched, if any.
    [if (queryId && recordId) reduxDispatch(fetchQueryLibraryRecordDSL(...))] *)
Definition fetchEffect (queryId recordId : JSValue) : option (JSValue * JSValue) :=
  if truthy queryId && truthy recordId then Some (queryId, recordId) else None.

(** [Object.values(queryLibraryMeta)[0]?.libraryQueryMetaView.id], on the
    values of [queryLibraryMeta]; reading [id] of a nullish
    [libraryQueryMetaView] throws ([None]). *)
Definition firstLibraryQueryId (metas : list JSValue) : option JSValue :=
  match metas with
  | [] => Some JUndefined
  | m :: _ =>
      if nullish m then Some JUndefined
      else v ← get m "libraryQueryMetaView"; get v "id"
  end.

(** The effect run once on mount: the action that is dispatched, if any.
    [if (!queryId && firstLibraryQueryId)
       dispatch(changeChildAction("libraryQueryId", firstLibraryQueryId))] *)
Definition selectFirstEffect (queryId : JSValue) (metas : list JSValue)
  : option (option CompAction) :=
  first ← firstLibraryQueryId metas;
  Some (if negb (truthy queryId) && truthy first
        then Some (changeChildAction "libraryQueryId" first)
        else None).

End PropertyView.

(** ** What a library query holds *)

Module Abstraction.

(** What a [LibraryQuery] node holds: the views of its three leaves, the
    children of its [inputs] child with the values they hold, the parameters
    and the declared inputs of that child, and its own two fields. *)
Record LQ := {
  lq_queryId : JSValue;
  lq_recordId : JSValue;
  lq_error : JSValue;
  lq_children : gmap string loc;
  lq_inputs : gmap string JSValue;
  lq_params : JSValue;
  lq_declared : list InputItem;
  lq_isReady : bool;
  lq_value : JSValue;
}.

(** The node at [l] is a [LibraryQuery] with the four children of
    [childrenMap] and holds [s]. *)
Definition represents (h : heap) (l : loc) (s : LQ) : Prop :=
  ∃ ch cq cr ci ce dq dr de,
    h !! l = Some (OLibraryQuery ch (lq_isReady s) (lq_value s)) ∧
    (∀ k, k ∉ ["libraryQueryId"; "libraryQueryRecordId"; "inputs"; "error"] →
          ch !! k = None) ∧
    ch !! "libraryQueryId" = Some cq ∧
    h !! cq = Some (OLeaf (valueComp dq) (lq_queryId s)) ∧
    ch !! "libraryQueryRecordId" = Some cr ∧
    h !! cr = Some (OLeaf (valueComp dr) (lq_recordId s)) ∧
    ch !! "inputs" = Some ci ∧
    h !! ci = Some (OInputsComp (lq_children s) (lq_params s) (lq_declared s)) ∧
    holds h (lq_children s) (lq_inputs s) ∧
    ch !! "error" = Some ce ∧
    h !! ce = Some (OLeaf (stateComp de) (lq_error s)).

(** [toJsonValue()] in terms of what the node holds. *)
Definition serialised (s : LQ) : JSValue :=
  JObj (<["libraryQueryId" := lq_queryId s]>
       (<["libraryQueryRecordId" := lq_recordId s]>
       (<["inputs" := if lq_isReady s then JObj (lq_inputs s)
                      else get_opt (lq_value s) "inputs"]> ∅))).

End Abstraction.
Export Abstraction.

(** ** Concrete instances *)

Module Example.

Definition externals : Externals :=
  {| trans := λ key, key; JSONValueControl_default := JStr "" |}.

Definition controlDefaults : MongoQuery.ControlDefaults :=
  {| MongoQuery.ParamsJsonControl_default := JStr "";
     MongoQuery.ParamsPositiveNumberControl_default := JStr "";
     MongoQuery.ParamsStringControl_default := JStr "" |}.

(** A FIND query with populated payload fields. *)
Definition findQuery : MongoQuery.MongoQuery :=
  {| MongoQuery.compType := JStr "FIND";
     MongoQuery.comp :=
       [ ("query", JStr "{ rating : {$gte : 9} }");
         ("projection", JStr "{name : 1}");
         ("limit", JStr "10");
         ("skip", JStr "0");
         ("sort", JStr "{name : 1}") ];
     MongoQuery.collection := JStr "users" |}.

(** A node whose own discriminator is a write command. *)
Definition insertQuery : MongoQuery.MongoQuery :=
  {| MongoQuery.compType := JStr "INSERT";
     MongoQuery.comp := [ ("documents", JStr "[{ _id: 1 }]") ];
     MongoQuery.collection := JStr "users" |}.

Definition item (n d : string) : InputItem :=
  {| name := n; description := JStr d |}.

(** The outcome of a computation that is known to succeed. *)
Definition run {A} (m : M A) (h : heap) (fallback : A) : A * heap :=
  match m h with
  | Ok r => r
  | Err _ => (fallback, h)
  end.

(** A library query saved with the inputs [a] and [b]. *)
Definition savedValue : JSValue :=
  LibraryQuery_value "q1" "latest"
    (<["a" := JStr "1"]> (<["b" := JStr "2"]> ∅)).

Definition savedQuery : loc * heap :=
  run (@LibraryQuery.new externals savedValue) [] 0.

(** An [InputsComp] constructed with values for [a] and [c] whose record
    declares [a] and [b], and whose child [a] has then been edited. *)
Definition editedInputs : loc * heap :=
  let s0 := run (@new_InputsComp externals
                   (JObj (<["a" := JStr "1"]> (<["c" := JStr "3"]> ∅)))) [] 0 in
  let s1 := run (@InputsComp.setInputs externals s0.1
                   [item "a" "first"; item "b" "second"]) s0.2 0 in
  run (@LibraryQuery.reduce externals (changeChildAction "a" (JStr "9")) s1.1)
    s1.2 0.

(** The same node once the record declares [a] and [c]. *)
Definition rekeyedInputs : loc * heap :=
  run (@InputsComp.setInputs externals editedInputs.1
         [item "a" "first"; item "c" "third"]) editedInputs.2 0.

(** The saved library query once its record, which declares [a] only, has
    arrived. *)
Definition readyQuery : loc * heap :=
  run (@LibraryQuery.reduce externals
         (LibraryQuery.queryLibraryUpdate (dsl_of_inputs [item "a" "first"]))
         savedQuery.1) savedQuery.2 0.

(** An [InputsComp] constructed without a value. *)
Definition emptyInputs : loc * heap :=
  run (@new_InputsComp externals JUndefined) [] 0.

(** The same node once a record declares one input, named [__proto__]. *)
Definition protoInputs : loc * heap :=
  run (@InputsComp.setInputs externals emptyInputs.1 [item "__proto__" "d"])
    emptyInputs.2 0.






End Example.

(** ** A library with one query *)

Module Scenario.

(** The library shown to the property view: one query, [q1]. *)
Definition libraryMeta : JSValue :=
  JObj {[ "libraryQueryMetaView" :=
            JObj (<["id" := JStr "q1"]> (<["name" := JStr "orders"]> ∅)) ]}.

(** The record of [q1], which declares the input [a]. *)
Definition record : JSValue :=
  dsl_of_inputs [Example.item "a" "first"].

(** What the saved library query of [Example.savedQuery] holds, its input
    children being at [chi]. *)
Definition savedState (chi : gmap string loc) : LQ :=
  {| lq_queryId := JStr "q1";
     lq_recordId := JStr "latest";
     lq_error := JStr "";
     lq_children := chi;
     lq_inputs := <["a" := JStr "1"]> (<["b" := JStr "2"]> ∅);
     lq_params := JObj (<["a" := JStr "1"]> (<["b" := JStr "2"]> ∅));
     lq_declared := [];
     lq_isReady := false;
     lq_value := Example.savedValue |}.

(** A library query constructed without a value. *)
Definition freshQuery : loc * heap :=
  Example.run (@LibraryQuery.new Example.externals JUndefined) [] 0.

Definition freshState (chi : gmap string loc) : LQ :=
  {| lq_queryId := JStr "";
     lq_recordId := JStr "latest";
     lq_error := JStr "";
     lq_children := chi;
     lq_inputs := ∅;
     lq_params := JUndefined;
     lq_declared := [];
     lq_isReady := false;
     lq_value := JUndefined |}.

End Scenario.

(** * Tactics *)

(** Case analysis on membership in an explicit list. *)
Ltac list_cases H :=
  repeat (apply elem_of_cons in H as [-> | H]); [.. | by apply elem_of_nil in H].

(** * Properties of MongoQuery *)

Section MongoQueryFacts.
Context `{!MongoQuery.ControlDefaults}.
Import MongoQuery.

Lemma includes_spec (l : list string) (c : JSValue) :
  includes l c = true ↔ c ∈ JStr <$> l.
Proof.
  rewrite list_elem_of_fmap. destruct c; simpl;
    try (split; [discriminate | by intros (? & [=] & _)]).
  rewrite bool_decide_eq_true. split.
  - intros Hs. by exists s.
  - by intros (? & [= ->] & Hs).
Qed.

Lemma CommandMap_keys (t : string) :
  is_Some (CommandMap !! t) ↔ t ∈ CommandOptions.*2.
Proof.
  unfold CommandMap. rewrite <- elem_of_dom, dom_list_to_map_L, elem_of_list_to_set.
  reflexivity.
Qed.

(** C7. The write classification of [isWrite] partitions the discriminators:
    on a whole-value change action whose value carries [compType], it answers
    true exactly for INSERT, UPDATE, DELETE and RAW, it answers false for
    FIND, COUNT, DISTINCT and AGGREGATE, and every discriminator of the
    discriminator-to-schema table falls in one of the two classes. *)
Theorem isWrite_partitions_commands (this : MongoQuery) (value c : JSValue) :
  hasOwn value "compType" = Some c →
  (∃ b, isWrite this (changeValueAction value) = Some b ∧
        (b = true ↔ c ∈ JStr <$> ["INSERT"; "UPDATE"; "DELETE"; "RAW"])) ∧
  (c ∈ JStr <$> ["FIND"; "COUNT"; "DISTINCT"; "AGGREGATE"] →
     isWrite this (changeValueAction value) = Some false) ∧
  (∀ t, is_Some (CommandMap !! t) →
     (t ∈ ["INSERT"; "UPDATE"; "DELETE"; "RAW"] ∧
      t ∉ ["FIND"; "COUNT"; "DISTINCT"; "AGGREGATE"]) ∨
     (t ∈ ["FIND"; "COUNT"; "DISTINCT"; "AGGREGATE"] ∧
      t ∉ ["INSERT"; "UPDATE"; "DELETE"; "RAW"])).
Proof.
  intros Hc. destruct value; try discriminate. simpl in Hc.
  assert (Hw : isWrite this (changeValueAction (JObj m))
               = Some (includes ["INSERT"; "UPDATE"; "DELETE"; "RAW"] c)).
  { unfold isWrite. simpl. by rewrite Hc. }
  split; [| split].
  - eexists. split; [exact Hw |]. apply includes_spec.
  - intros Hr. rewrite Hw. f_equal.
    apply list_elem_of_fmap in Hr as (t & -> & Ht).
    list_cases Ht; by vm_compute.
  - intros t Ht. apply CommandMap_keys in Ht. simpl in Ht.
    list_cases Ht; apply (bool_decide_unpack _); by vm_compute.
Qed.

(** C9, amended.  [isWrite] is a function of the action alone: on an action
    without a [value] property, and on an action whose value is neither
    [null] nor [undefined] and whose [compType] is absent or anything but
    INSERT, UPDATE, DELETE, RAW, it answers false whatever the receiving node
    is, in particular when the node's own discriminator is a write command. *)
Theorem isWrite_depends_on_action_only (this : MongoQuery) (action : CompAction) :
  (a_value action = None ∨
   ∃ value c, a_value action = Some value ∧ get value "compType" = Some c ∧
              c ∉ JStr <$> ["INSERT"; "UPDATE"; "DELETE"; "RAW"]) →
  isWrite this action = Some false ∧
  ∀ other, isWrite other action = isWrite this action.
Proof.
  intros Hcases. split; [| done].
  unfold isWrite. destruct Hcases as [-> | (value & c & -> & -> & Hc)]; [done |].
  simpl. f_equal. apply not_true_is_false. by rewrite includes_spec.
Qed.

(** The property read of [isWrite] is not guarded against a nullish value:
    on such an action the call throws. *)
Lemma isWrite_nullish_value (this : MongoQuery) (action : CompAction) (value : JSValue) :
  a_value action = Some value → nullish value = true → isWrite this action = None.
Proof. intros Hv Hn. unfold isWrite. rewrite Hv. by destruct value. Qed.

(** C1. Dispatching the change of discriminator to B, the action of the
    command dropdown, stores B as the discriminator and rebuilds the payload
    from the schema registered for B with an empty value: every payload field
    holds the default of its control, whatever the node held before. *)
Theorem change_discriminator_rebuilds_payload (this : MongoQuery) (B : string) :
  B ∈ CommandOptions.*2 →
  ∃ schema next,
    CommandMap !! B = Some schema ∧
    reduce this (onChange_Commands B) = Some next ∧
    compType next = JStr B ∧
    comp next = (λ f, (f.1, control_default f.2)) <$> schema.
Proof.
  intros HB. simpl in HB.
  list_cases HB; do 2 eexists; (split; [by vm_compute |]); vm_compute; eauto.
Qed.

End MongoQueryFacts.

(** * The store only grows *)
Section StoreFacts.
Context `{!Externals}.

Lemma allocates_refl P (h : heap) : allocates P h h.
Proof. exists []. by rewrite app_nil_r. Qed.

Lemma allocates_trans P (h1 h2 h3 : heap) :
  allocates P h1 h2 → allocates P h2 h3 → allocates P h1 h3.
Proof.
  intros (k1 & -> & H1) (k2 & -> & H2). exists (k1 ++ k2).
  split; [by rewrite app_assoc | by apply Forall_app].
Qed.

Lemma allocates_prefix P (h h' : heap) : allocates P h h' → h `prefix_of` h'.
Proof. intros (k & -> & _). by exists k. Qed.

Lemma allocates_length P (h h' : heap) : allocates P h h' → length h ≤ length h'.
Proof. intros (k & -> & _). rewrite length_app. lia. Qed.

Lemma prefix_lookup (h h' : heap) (l : loc) (o : obj) :
  h `prefix_of` h' → h !! l = Some o → h' !! l = Some o.
Proof. intros [k ->] Hl. by apply lookup_app_l_Some. Qed.

Lemma prefix_lookup_lt (h h' : heap) (l : loc) :
  h `prefix_of` h' → l < length h → h' !! l = h !! l.
Proof. intros [k ->] Hl. by apply lookup_app_l. Qed.

Lemma alloc_allocates (P : obj → Prop) (o : obj) (h : heap) :
  P o → allocates P h (h ++ [o]).
Proof. intros Ho. exists [o]. split; [done |]. by apply Forall_singleton. Qed.

Lemma lookup_alloc (h : heap) (o : obj) : (h ++ [o]) !! length h = Some o.
Proof. by apply list_lookup_middle. Qed.

Lemma holds_prefix (h h' : heap) ch vals :
  h `prefix_of` h' → holds h ch vals → holds h' ch vals.
Proof.
  intros Hp [Hdom Hv]. split; [done |].
  intros k c Hc. destruct (Hv k c Hc) as (v & ? & ?).
  exists v. eauto using prefix_lookup.
Qed.

Lemma constructed_prefix ctor value r (h h' : heap) :
  h `prefix_of` h' → constructed ctor value r h → constructed ctor value r h'.
Proof.
  intros Hp. destruct ctor; simpl.
  - by apply prefix_lookup.
  - intros (ch & ? & ?). exists ch. eauto using prefix_lookup, holds_prefix.
Qed.

(** The children built from a list of entries with distinct keys. *)
Lemma build_children_spec {X} (P : obj → Prop) (mk : string → X → M loc)
    (Q : string → X → loc → heap → Prop) :
  (∀ k x r h h', h `prefix_of` h' → Q k x r h → Q k x r h') →
  ∀ (l : list (string * X)) (acc : gmap string loc) (h : heap),
  (∀ k x h0, (k, x) ∈ l →
     ∃ r h1, mk k x h0 = Ok (r, h1) ∧ allocates P h0 h1 ∧
             length h0 ≤ r < length h1 ∧ Q k x r h1) →
  NoDup l.*1 →
  ∃ res h', build_children mk l acc h = Ok (res, h') ∧ allocates P h h' ∧
    (∀ k, k ∉ l.*1 → res !! k = acc !! k) ∧
    (∀ k x, (k, x) ∈ l →
       ∃ r, res !! k = Some r ∧ length h ≤ r < length h' ∧ Q k x r h').
Proof.
  intros Hstable l. induction l as [| [k x] l IH]; intros acc h Hmk Hnd.
  - exists acc, h. simpl. split; [done |]. split; [apply allocates_refl |].
    split; [done |]. intros k x Hin. by apply elem_of_nil in Hin.
  - simpl in Hnd. apply NoDup_cons in Hnd as [Hk Hnd].
    destruct (Hmk k x h) as (r & h1 & Hr & Ha1 & Hfresh & HQ); [left |].
    destruct (IH (<[k := r]> acc) h1) as (res & h' & Hres & Ha & Hout & Hin);
      [intros; apply Hmk; by right | done |].
    exists res, h'. simpl. unfold bind. rewrite Hr.
    split; [done |]. split; [by eapply allocates_trans |].
    pose proof (allocates_length _ _ _ Ha1). pose proof (allocates_length _ _ _ Ha).
    split.
    + intros k' Hk'. apply not_elem_of_cons in Hk' as [Hne Hk'].
      rewrite (Hout k' Hk'). by rewrite lookup_insert_ne.
    + intros k' x' [Heq | Hin']%elem_of_cons.
      * injection Heq as -> ->. exists r. rewrite (Hout k Hk), lookup_insert_eq.
        split; [done |]. split; [lia |].
        eapply Hstable; [| done]. by eapply allocates_prefix.
      * destruct (Hin k' x' Hin') as (r' & ? & ? & ?). exists r'.
        split; [done |]. split; [lia | done].
Qed.

End StoreFacts.

(** * Construction *)
Section ConstructionFacts.
Context `{!Externals}.

Lemma elem_of_fst_map_to_list {A} (m : gmap string A) (k : string) :
  k ∈ (map_to_list m).*1 ↔ is_Some (m !! k).
Proof.
  rewrite list_elem_of_fmap. split.
  - intros ([k' v] & -> & Hin). apply elem_of_map_to_list in Hin. by exists v.
  - intros [v Hv]. exists (k, v). split; [done |]. by apply elem_of_map_to_list.
Qed.

Lemma new_leaf_spec (c : LeafClass) (value : option JSValue) (h : heap) :
  new_leaf c value h
  = Ok (length h, h ++ [OLeaf c (default (leaf_default c) value)]).
Proof. done. Qed.

Lemma new_InputsComp_spec (value : JSValue) (h : heap) :
  ∃ r h' ch,
    new_InputsComp value h = Ok (r, h') ∧
    allocates (λ _, True) h h' ∧ length h ≤ r < length h' ∧
    h' !! r = Some (OInputsComp ch value []) ∧
    holds h' ch (child_entries value).
Proof.
  unfold new_InputsComp, InputsComp_parseChildrenFromValue, entries, child_entries.
  set (m := spread (coalesce value (JObj ∅))).
  destruct (build_children_spec (λ _, True)
              (λ _ v, new_leaf JSONValueControl (Some v))
              (λ _ v r h, h !! r = Some (OLeaf JSONValueControl v))
              ltac:(intros; by eapply prefix_lookup)
              (map_to_list m) ∅ h)
    as (ch & h1 & Hrun & Ha & Hout & Hin).
  { intros k v h0 _. do 2 eexists. rewrite new_leaf_spec.
    split; [done |]. split; [by apply alloc_allocates |].
    rewrite length_app. simpl. split; [lia |]. apply lookup_alloc. }
  { apply NoDup_fst_map_to_list. }
  exists (length h1), (h1 ++ [OInputsComp (delete "__proto__" ch) value []]),
    (delete "__proto__" ch).
  unfold bind. rewrite Hrun. split; [done |].
  split. { eapply allocates_trans; [done |]. by apply alloc_allocates. }
  pose proof (allocates_length _ _ _ Ha).
  rewrite length_app. simpl. split; [lia |].
  split; [apply lookup_alloc |].
  apply holds_prefix with h1; [by eexists |].
  assert (Hsome : ∀ k v, m !! k = Some v →
            ∃ r, ch !! k = Some r ∧ h1 !! r = Some (OLeaf JSONValueControl v)).
  { intros k v Hk. destruct (Hin k v) as (r & Hr & _ & Hleaf);
      [by apply elem_of_map_to_list | eauto]. }
  assert (Hnone : ∀ k, m !! k = None → ch !! k = None).
  { intros k Hk. rewrite Hout, lookup_empty; [done |].
    rewrite elem_of_fst_map_to_list, Hk. by intros [? ?]. }
  split.
  - intros k. destruct (decide (k = "__proto__")) as [-> | Hne].
    { rewrite !lookup_delete_eq. split; by intros [? ?]. }
    rewrite !lookup_delete_ne by done.
    destruct (m !! k) as [v |] eqn:Hk.
    + destruct (Hsome k v Hk) as (r & -> & _). split; eauto.
    + rewrite (Hnone k Hk). done.
  - intros k c. destruct (decide (k = "__proto__")) as [-> | Hne].
    { by rewrite lookup_delete_eq. }
    rewrite !lookup_delete_ne by done. intros Hc.
    destruct (m !! k) as [v |] eqn:Hk.
    + destruct (Hsome k v Hk) as (r & Hr & Hleaf).
      exists v. split; [done |]. congruence.
    + by rewrite (Hnone k Hk) in Hc.
Qed.

Lemma construct_spec (ctor : Ctor) (value : option JSValue) (h : heap) :
  ∃ r h',
    construct ctor value h = Ok (r, h') ∧
    allocates (λ _, True) h h' ∧ length h ≤ r < length h' ∧
    constructed ctor value r h'.
Proof.
  destruct ctor as [c |]; simpl.
  - do 2 eexists. rewrite new_leaf_spec. split; [done |].
    split; [by apply alloc_allocates |].
    rewrite length_app. simpl. split; [lia |]. apply lookup_alloc.
  - destruct (new_InputsComp_spec (default JUndefined value) h)
      as (r & h' & ch & ? & ? & ? & ? & ?).
    exists r, h'. eauto 10.
Qed.

Lemma parseChildrenFromValueAndChildrenMap_spec (value : JSValue)
    (childrenMap : gmap string Ctor) (h : heap) :
  ∃ children h',
    parseChildrenFromValueAndChildrenMap value childrenMap h = Ok (children, h') ∧
    allocates (λ _, True) h h' ∧
    (∀ k, childrenMap !! k = None → children !! k = None) ∧
    (∀ k ctor, childrenMap !! k = Some ctor →
       ∃ r, children !! k = Some r ∧ length h ≤ r < length h' ∧
            constructed ctor (hasOwn value k) r h').
Proof.
  unfold parseChildrenFromValueAndChildrenMap.
  destruct (build_children_spec (λ _, True)
              (λ k ctor, construct ctor (hasOwn value k))
              (λ k ctor r h, constructed ctor (hasOwn value k) r h)
              ltac:(intros; by eapply constructed_prefix)
              (map_to_list childrenMap) ∅ h)
    as (children & h' & Hrun & Ha & Hout & Hin).
  { intros k ctor h0 _. apply construct_spec. }
  { apply NoDup_fst_map_to_list. }
  exists children, h'. split; [done |]. split; [done |]. split.
  - intros k Hk. rewrite Hout, lookup_empty; [done |].
    rewrite elem_of_fst_map_to_list, Hk. by intros [? ?].
  - intros k ctor Hk. apply Hin. by apply elem_of_map_to_list.
Qed.

End ConstructionFacts.

(** * InputsComp *)
Section InputsCompFacts.
Context `{!Externals}.

Lemma leaf_toJsonValue_prefix (h h' : heap) (l : loc) :
  h `prefix_of` h' → l < length h → leaf_toJsonValue h' l = leaf_toJsonValue h l.
Proof. intros Hp Hl. unfold leaf_toJsonValue. by rewrite (prefix_lookup_lt h h'). Qed.

Lemma omap_leaf_toJsonValue_holds (h : heap) ch vals :
  holds h ch vals → omap (leaf_toJsonValue h) ch = vals.
Proof.
  intros [Hdom Hv]. apply map_eq. intros k. rewrite lookup_omap.
  destruct (ch !! k) as [c |] eqn:Hc; simpl.
  - destruct (Hv k c Hc) as (v & -> & Hl). unfold leaf_toJsonValue. by rewrite Hl.
  - destruct (vals !! k) eqn:Hk; [| done].
    destruct (proj2 (Hdom k)) as [? ?]; [eauto | congruence].
Qed.

Lemma InputsComp_toJsonValue_holds (h : heap) (l : loc) ch pv inputs vals :
  h !! l = Some (OInputsComp ch pv inputs) → holds h ch vals →
  InputsComp_toJsonValue h l = JObj vals.
Proof.
  intros Hl Hh. unfold InputsComp_toJsonValue. rewrite Hl. simpl.
  by rewrite (omap_leaf_toJsonValue_holds h ch vals).
Qed.

(** Every own key of the constructor map is a declared name other than
    [__proto__], and its constructor is [JSONValueControl]. *)
Lemma fill_own (inputs : list InputItem) (m m' : InputsComp.ChildrenMap) :
  InputsComp.fill m inputs = Ok m' →
  ∀ k c, InputsComp.cm_own m' !! k = Some c →
    InputsComp.cm_own m !! k = Some c ∨
    (c = CLeaf JSONValueControl ∧ k ∈ name <$> inputs ∧ k ≠ "__proto__").
Proof.
  revert m. induction inputs as [| item inputs IH]; intros m; simpl.
  - intros [= <-] k c Hk. by left.
  - unfold InputsComp.assign.
    destruct (String.eqb (name item) "__proto__") eqn:Hp.
    + intros Hfill k c Hk. destruct (IH _ Hfill k c Hk) as [? | (? & ? & ?)];
        [by left | right]. split; [done |]. split; [by right | done].
    + apply String.eqb_neq in Hp.
      destruct (InputsComp.cm_plain m
                || bool_decide (is_Some (InputsComp.cm_own m !! name item)));
        [| by destruct (bool_decide (name item ∈ ["length"; "name"]))].
      intros Hfill k c Hk. destruct (IH _ Hfill k c Hk) as [Hm | (? & ? & ?)].
      * simpl in Hm. destruct (decide (k = name item)) as [-> | Hne].
        -- rewrite lookup_insert_eq in Hm. injection Hm as <-. right.
           split; [done |]. split; [by left | done].
        -- rewrite lookup_insert_ne in Hm by done. by left.
      * right. split; [done |]. split; [by right | done].
Qed.

(** Without the name [__proto__], every declared name becomes a key. *)
Lemma fill_plain (inputs : list InputItem) (own : gmap string Ctor) :
  "__proto__" ∉ name <$> inputs →
  InputsComp.fill {| InputsComp.cm_own := own; InputsComp.cm_plain := true |}
    inputs
  = Ok {| InputsComp.cm_own :=
            foldl (λ acc item, <[name item := CLeaf JSONValueControl]> acc)
              own inputs;
          InputsComp.cm_plain := true |}.
Proof.
  revert own. induction inputs as [| item inputs IH]; intros own Hp; [done |].
  rewrite fmap_cons in Hp. apply not_elem_of_cons in Hp as [Hne Hp].
  simpl. unfold InputsComp.assign.
  rewrite (proj2 (String.eqb_neq _ _)) by done. simpl. by apply IH.
Qed.

Lemma foldl_insert_lookup (inputs : list InputItem)
    (acc : gmap string Ctor) (k : string) :
  foldl (λ acc item, <[name item := CLeaf JSONValueControl]> acc) acc inputs !! k
  = if decide (k ∈ name <$> inputs) then Some (CLeaf JSONValueControl)
    else acc !! k.
Proof.
  revert acc. induction inputs as [| item inputs IH]; intros acc.
  - case_decide as Hin; [by apply elem_of_nil in Hin | done].
  - rewrite fmap_cons. simpl. rewrite IH.
    destruct (decide (k ∈ name <$> inputs)) as [Hin | Hnin].
    + rewrite decide_True; [done | by right].
    + destruct (decide (k = name item)) as [-> | Hne].
      * rewrite lookup_insert_eq, decide_True; [done | by left].
      * rewrite lookup_insert_ne by done.
        rewrite decide_False; [done |]. by intros [? | ?]%elem_of_cons.
Qed.

Lemma setInputs_childrenMap_plain (inputs : list InputItem) :
  "__proto__" ∉ name <$> inputs →
  ∃ keys, InputsComp.setInputs_childrenMap inputs = Ok keys ∧
    ∀ k, keys !! k = if decide (k ∈ name <$> inputs)
                     then Some (CLeaf JSONValueControl) else None.
Proof.
  intros Hp. unfold InputsComp.setInputs_childrenMap. rewrite fill_plain by done.
  eexists. split; [done |]. intros k. simpl.
  by rewrite foldl_insert_lookup, lookup_empty.
Qed.

Lemma setInputs_childrenMap_own (inputs : list InputItem) keys :
  InputsComp.setInputs_childrenMap inputs = Ok keys →
  ∀ k c, keys !! k = Some c →
    c = CLeaf JSONValueControl ∧ k ∈ name <$> inputs ∧ k ≠ "__proto__".
Proof.
  unfold InputsComp.setInputs_childrenMap.
  destruct (InputsComp.fill _ inputs) as [m |] eqn:Hfill; [| done].
  intros [= <-] k c Hk.
  destruct (fill_own inputs _ m Hfill k c Hk) as [Hm | ?]; [| done].
  simpl in Hm. by rewrite lookup_empty in Hm.
Qed.

(** What [setInputs] returns when the constructor map has the own keys
    [keys]: a new node with one new child per key, holding the value
    serialised from the present child of that name, else the value of that
    name in the construction-time value, else the default of the control. *)
Lemma setInputs_run (this : loc) (inputs : list InputItem) (h : heap)
    ch pv old keys :
  h !! this = Some (OInputsComp ch pv old) →
  InputsComp.setInputs_childrenMap inputs = Ok keys →
  ∃ r h' ch',
    InputsComp.setInputs this inputs h = Ok (r, h') ∧
    allocates (λ _, True) h h' ∧ length h ≤ r < length h' ∧
    h' !! r = Some (OInputsComp ch' pv inputs) ∧
    (∀ k, is_Some (ch' !! k) ↔ is_Some (keys !! k)) ∧
    (∀ k c, ch' !! k = Some c →
       length h ≤ c < length h' ∧
       h' !! c = Some (OLeaf JSONValueControl
                  (default JSONValueControl_default
                     ((omap (leaf_toJsonValue h) ch ∪ spread pv) !! k)))).
Proof.
  intros Hthis Hkeys. unfold InputsComp.setInputs, bind, read, getHeap.
  rewrite Hthis, Hkeys.
  unfold InputsComp_toJsonValue. rewrite Hthis. simpl.
  set (merged := omap (leaf_toJsonValue h) ch ∪ spread pv).
  destruct (parseChildrenFromValueAndChildrenMap_spec (JObj merged) keys h)
    as (ch' & h1 & -> & Ha & Hout & Hin).
  pose proof (allocates_length _ _ _ Ha) as Hlen.
  exists (length h1), (h1 ++ [OInputsComp ch' pv inputs]), ch'.
  assert (Hdom : ∀ k, is_Some (ch' !! k) ↔ is_Some (keys !! k)).
  { intros k. destruct (keys !! k) as [c |] eqn:Hk.
    - destruct (Hin k _ Hk) as (r & -> & _). split; eauto.
    - rewrite (Hout k Hk). done. }
  split; [done |].
  split. { eapply allocates_trans; [done |]. by apply alloc_allocates. }
  rewrite length_app. simpl. split; [lia |].
  split; [apply lookup_alloc |]. split; [done |].
  intros k c Hc. destruct (proj1 (Hdom k)) as [ctor Hk]; [eauto |].
  destruct (setInputs_childrenMap_own inputs keys Hkeys k ctor Hk) as [-> _].
  destruct (Hin k _ Hk) as (r & Hr & Hfresh & Hcons).
  rewrite Hc in Hr. injection Hr as <-. split; [lia |].
  by apply lookup_app_l_Some.
Qed.

(** What [setInputs] returns when no declared name is [__proto__]: the keys
    of the new node are the declared names. *)
Lemma setInputs_spec (this : loc) (inputs : list InputItem) (h : heap)
    ch pv old :
  h !! this = Some (OInputsComp ch pv old) →
  "__proto__" ∉ name <$> inputs →
  ∃ r h' ch',
    InputsComp.setInputs this inputs h = Ok (r, h') ∧
    allocates (λ _, True) h h' ∧ length h ≤ r < length h' ∧
    h' !! r = Some (OInputsComp ch' pv inputs) ∧
    (∀ k, is_Some (ch' !! k) ↔ k ∈ name <$> inputs) ∧
    (∀ k c, ch' !! k = Some c →
       length h ≤ c < length h' ∧
       h' !! c = Some (OLeaf JSONValueControl
                  (default JSONValueControl_default
                     ((omap (leaf_toJsonValue h) ch ∪ spread pv) !! k)))).
Proof.
  intros Hthis Hp.
  destruct (setInputs_childrenMap_plain inputs Hp) as (keys & Hkeys & Hlook).
  destruct (setInputs_run this inputs h ch pv old keys Hthis Hkeys)
    as (r & h' & ch' & Hrun & Ha & Hr & Hl & Hdom & Hval).
  exists r, h', ch'. split; [done |]. split; [done |]. split; [done |].
  split; [done |]. split; [| done].
  intros k. rewrite Hdom, Hlook. case_decide as Hk.
  - split; [done | by eexists].
  - split; [by intros [? ?] | done].
Qed.

End InputsCompFacts.

(** * Reduction *)
Section ReduceFacts.
Context `{!Externals}.

Lemma new_spec (value : JSValue) (h : heap) :
  ∃ r h' ch,
    LibraryQuery.new value h = Ok (r, h') ∧
    allocates (λ _, True) h h' ∧ length h ≤ r < length h' ∧
    h' !! r = Some (OLibraryQuery ch false value) ∧
    (∀ k, LibraryQuery.childrenMap !! k = None → ch !! k = None) ∧
    (∀ k ctor, LibraryQuery.childrenMap !! k = Some ctor →
       ∃ c, ch !! k = Some c ∧ length h ≤ c < length h' ∧
            constructed ctor (hasOwn value k) c h').
Proof.
  unfold LibraryQuery.new, bind.
  destruct (parseChildrenFromValueAndChildrenMap_spec value
              LibraryQuery.childrenMap h) as (ch & h1 & -> & Ha & Hout & Hin).
  pose proof (allocates_length _ _ _ Ha).
  exists (length h1), (h1 ++ [OLibraryQuery ch false value]), ch.
  split; [done |].
  split. { eapply allocates_trans; [done |]. by apply alloc_allocates. }
  rewrite length_app. simpl. split; [lia |].
  split; [apply lookup_alloc |]. split; [done |].
  intros k ctor Hk. destruct (Hin k ctor Hk) as (c & ? & ? & ?).
  exists c. split; [done |]. split; [lia |].
  eapply constructed_prefix; [| done]. by eexists.
Qed.

Lemma setInputs_allocates (this : loc) (inputs : list InputItem) (h : heap) r h' :
  InputsComp.setInputs this inputs h = Ok (r, h') →
  allocates (λ _, True) h h' ∧ length h ≤ r < length h'.
Proof.
  intros Hrun. destruct (h !! this) as [o |] eqn:Hthis.
  - destruct o as [| ch pv old |];
      try (unfold InputsComp.setInputs, bind, read, getHeap in Hrun;
           rewrite Hthis in Hrun; discriminate).
    destruct (InputsComp.setInputs_childrenMap inputs) as [keys |] eqn:Hkeys.
    + destruct (setInputs_run this inputs h ch pv old keys Hthis Hkeys)
        as (r0 & h0 & ch' & Hrun0 & ? & ? & _).
      rewrite Hrun0 in Hrun. by injection Hrun as <- <-.
    + unfold InputsComp.setInputs, bind, read, getHeap in Hrun.
      by rewrite Hthis, Hkeys in Hrun.
  - unfold InputsComp.setInputs, bind, read in Hrun. by rewrite Hthis in Hrun.
Qed.

Lemma super_reduce_allocates (this : loc) (o : obj) (action : CompAction)
    (h : heap) r h' :
  LibraryQuery.super_reduce this o action h = Ok (r, h') →
  allocates (λ _, True) h h' ∧ same_or_new this h r h'.
Proof.
  unfold LibraryQuery.super_reduce, same_or_new.
  destruct (a_type action).
  - destruct o as [c v | ch pv old | ch ready value].
    + intros [= <- <-]. split; [by apply alloc_allocates |].
      right. rewrite length_app. simpl. lia.
    + intros Hrun.
      destruct (new_InputsComp_spec (default JUndefined (a_value action)) h)
        as (r0 & h0 & ch0 & Hrun0 & ? & ? & _).
      rewrite Hrun0 in Hrun. injection Hrun as <- <-. eauto.
    + intros Hrun.
      destruct (new_spec (default JUndefined (a_value action)) h)
        as (r0 & h0 & ch0 & Hrun0 & ? & ? & _).
      rewrite Hrun0 in Hrun. injection Hrun as <- <-. eauto.
  - intros [= <- <-]. split; [apply allocates_refl | by left].
  - intros [= <- <-]. split; [apply allocates_refl | by left].
Qed.

Lemma reduce_queryLibraryUpdate_allocates ch isReady value
    (action : CompAction) (h : heap) r h' :
  LibraryQuery.reduce_queryLibraryUpdate ch isReady value action h = Ok (r, h') →
  allocates (λ _, True) h h' ∧ length h ≤ r < length h'.
Proof.
  unfold LibraryQuery.reduce_queryLibraryUpdate.
  destruct (ch !! "inputs") as [i |]; [| done].
  destruct (LibraryQuery.action_inputs action) as [items |]; [| done].
  unfold bind. destruct (InputsComp.setInputs i items h) as [[i' h1] |] eqn:Hset; [| done].
  apply setInputs_allocates in Hset as [Ha Hi].
  pose proof (allocates_length _ _ _ Ha).
  intros [= <- <-]. split.
  - eapply allocates_trans; [done |]. by apply alloc_allocates.
  - rewrite length_app. simpl. lia.
Qed.

Lemma reduce_here_allocates (this : loc) (o : obj) (action : CompAction)
    (h : heap) r h' :
  LibraryQuery.reduce_here this o action h = Ok (r, h') →
  allocates (λ _, True) h h' ∧ same_or_new this h r h'.
Proof.
  unfold LibraryQuery.reduce_here. destruct o; try apply super_reduce_allocates.
  destruct (isMyCustomAction action "queryLibraryUpdate");
    [| apply super_reduce_allocates].
  intros [? ?]%reduce_queryLibraryUpdate_allocates. split; [done | by right].
Qed.

(** Reduction only allocates, and it returns either the receiver, with the
    store untouched, or a newly allocated node. *)
Lemma reduce_path_allocates (path : list string) (type : CompActionTypes)
    (value : option JSValue) (this : loc) (h : heap) r h' :
  LibraryQuery.reduce_path path type value this h = Ok (r, h') →
  allocates (λ _, True) h h' ∧ this < length h ∧ same_or_new this h r h'.
Proof.
  revert this h r h'. induction path as [| k rest IH]; intros this h r h'.
  - simpl. unfold bind, read. destruct (h !! this) as [o |] eqn:Hthis; [| done].
    intros [Ha Hs]%reduce_here_allocates.
    split; [done |]. split; [by eapply lookup_lt_Some | done].
  - simpl. unfold bind, read. destruct (h !! this) as [o |] eqn:Hthis; [| done].
    pose proof (lookup_lt_Some _ _ _ Hthis) as Hlt.
    assert (Hleaf : Ok (this, h) = Ok (r, h') →
      allocates (λ _ : obj, True) h h' ∧ this < length h ∧
      same_or_new this h r h').
    { intros [= <- <-]. split; [apply allocates_refl |].
      split; [done | by left]. }
    destruct (obj_children o !! k) as [c |] eqn:Hc;
      [| destruct o; [exact Hleaf | done | done]].
    assert (Hstep :
      match LibraryQuery.reduce_path rest type value c h with
      | Ok (c', h1) => LibraryQuery.setChild this o k c c' h1
      | Err e => Err e
      end = Ok (r, h') →
      allocates (λ _ : obj, True) h h' ∧ this < length h ∧
      same_or_new this h r h').
    { destruct (LibraryQuery.reduce_path rest type value c h)
        as [[c' h1] |] eqn:Hrest; [| done].
      apply IH in Hrest as (Ha & Hclt & Hs).
      pose proof (allocates_length _ _ _ Ha).
      unfold LibraryQuery.setChild. destruct (decide (c' = c)) as [-> | Hne].
      - intros [= <- <-]. destruct Hs as [[_ ->] | ?]; [| lia].
        split; [apply allocates_refl |]. split; [done | by left].
      - intros [= <- <-]. split.
        + eapply allocates_trans; [done |]. by apply alloc_allocates.
        + split; [done |]. right. rewrite length_app. simpl. lia. }
    destruct o; [exact Hleaf | exact Hstep | exact Hstep].
Qed.

Lemma reduce_allocates (action : CompAction) (this : loc) (h : heap) r h' :
  LibraryQuery.reduce action this h = Ok (r, h') →
  allocates (λ _, True) h h' ∧ this < length h ∧ same_or_new this h r h'.
Proof. unfold LibraryQuery.reduce. apply reduce_path_allocates. Qed.

End ReduceFacts.

(** * Structural sharing *)
Section PersistenceFacts.
Context `{!Externals}.

(** One step of routing, inverted. *)
Lemma reduce_path_cons_inv (k : string) (rest : list string)
    (type : CompActionTypes) (value : option JSValue) (this : loc) (o : obj)
    (h : heap) r h' :
  h !! this = Some o →
  LibraryQuery.reduce_path (k :: rest) type value this h = Ok (r, h') →
  (r = this ∧ h' = h) ∨
  (∃ c c' h1,
     obj_children o !! k = Some c ∧
     LibraryQuery.reduce_path rest type value c h = Ok (c', h1) ∧
     c' ≠ c ∧ r = length h1 ∧
     h' = h1 ++ [with_children o (<[k := c']> (obj_children o))]).
Proof.
  intros Hthis. simpl. unfold bind, read. rewrite Hthis.
  destruct o as [cl v | ch pv inputs | ch ready val];
    [intros [= <- <-]; by left | |].
  all: simpl; destruct (ch !! k) as [c |] eqn:Hc; [| done].
  all: destruct (LibraryQuery.reduce_path rest type value c h)
         as [[c' h1] |] eqn:Hrest; [| done].
  all: unfold LibraryQuery.setChild; destruct (decide (c' = c)) as [-> | Hne].
  all: intros [= <- <-].
  all: try (right; by exists c, c', h1).
  all: left.
  all: apply reduce_path_allocates in Hrest as (Ha & Hlt & [[_ ->] | ?]);
         [done | lia].
Qed.

(** C5. Structural sharing: an action addressed to the child [k] of a node
    returns a node that differs from the receiver at most in the child [k];
    every sibling of [k] is the same reference as in the receiver, the other
    fields of the node are the receiver's, and the nodes of the store,
    the siblings among them, are unchanged. *)
Theorem reduce_child_shares_siblings (k : string) (action : CompAction)
    (this : loc) (o : obj) (h : heap) r h' :
  h !! this = Some o →
  LibraryQuery.reduce (wrapChildAction k action) this h = Ok (r, h') →
  ∃ o', h' !! r = Some o' ∧
        o' = with_children o (obj_children o') ∧
        (∀ k', k' ≠ k → obj_children o' !! k' = obj_children o !! k') ∧
        (∀ l ol, h !! l = Some ol → h' !! l = Some ol).
Proof.
  intros Hthis Hrun.
  assert (Hkeep : ∀ l ol, h !! l = Some ol → h' !! l = Some ol).
  { apply reduce_allocates in Hrun as (Ha & _).
    intros l ol. apply prefix_lookup. by eapply allocates_prefix. }
  unfold LibraryQuery.reduce in Hrun. simpl in Hrun.
  destruct (reduce_path_cons_inv _ _ _ _ _ _ _ _ _ Hthis Hrun)
    as [[-> ->] | (c & c' & h1 & Hc & Hrest & Hne & -> & ->)].
  - exists o. split; [done |]. split; [by destruct o | done].
  - eexists. split; [apply lookup_alloc |].
    split; [by destruct o |]. split; [| done].
    intros k' Hk'. destruct o; simpl; by rewrite ?lookup_insert_ne.
Qed.

(** The custom action replaces the [inputs] child only. *)
Lemma queryLibraryUpdate_shares_siblings (action : CompAction) (this : loc)
    ch isReady value (h : heap) r h' :
  isMyCustomAction action "queryLibraryUpdate" = true →
  h !! this = Some (OLibraryQuery ch isReady value) →
  LibraryQuery.reduce action this h = Ok (r, h') →
  ∃ i, h' !! r = Some (OLibraryQuery (<["inputs" := i]> ch) true value) ∧
       length h ≤ i.
Proof.
  intros Hmy Hthis. unfold LibraryQuery.reduce.
  assert (a_path action = []) as ->.
  { unfold isMyCustomAction in Hmy. destruct (a_type action); try done.
    by destruct (a_path action). }
  simpl. unfold bind, read. rewrite Hthis. simpl.
  replace {| a_type := a_type action; a_path := []; a_value := a_value action |}
    with action.
  2:{ destruct action as [ty p v]. unfold isMyCustomAction in Hmy. simpl in *.
      destruct ty; try done. by destruct p. }
  rewrite Hmy. unfold LibraryQuery.reduce_queryLibraryUpdate.
  destruct (ch !! "inputs") as [i |]; [| done].
  destruct (LibraryQuery.action_inputs action) as [items |]; [| done].
  unfold bind. destruct (InputsComp.setInputs i items h) as [[i' h1] |] eqn:Hset; [| done].
  intros [= <- <-]. exists i'. split; [apply lookup_alloc |].
  by apply setInputs_allocates in Hset as [_ [? _]].
Qed.

End PersistenceFacts.

(** * The dynamic map of inputs *)
Section DynamicMapFacts.
Context `{!Externals}.

(** C2, amended.  On an [InputsComp] with children for [a] and [b] and none
    for [c], where the child for [a] holds the edited value [va] and neither
    [a] nor [c] is the name [__proto__], recomputing the keys to [a] and [c]
    returns a node whose child for [a] is a new node, not the existing one,
    holding [va]; that has no child for [b]; and whose child for [c] is a new
    node holding the value that the node was constructed with for [c], or the
    default of the control when there was none. *)
Theorem setInputs_rebuilds_children (this : loc) (h : heap) ch pv old
    (ia ic : InputItem) (b : string) (ca : loc) (va : JSValue) :
  h !! this = Some (OInputsComp ch pv old) →
  ch !! name ia = Some ca →
  h !! ca = Some (OLeaf JSONValueControl va) →
  is_Some (ch !! b) →
  ch !! name ic = None →
  b ≠ name ia → b ≠ name ic →
  name ia ≠ "__proto__" → name ic ≠ "__proto__" →
  ∃ r h' ch' ca' cc',
    InputsComp.setInputs this [ia; ic] h = Ok (r, h') ∧
    h' !! r = Some (OInputsComp ch' pv [ia; ic]) ∧
    ch' !! name ia = Some ca' ∧ ca' ≠ ca ∧
    h' !! ca' = Some (OLeaf JSONValueControl va) ∧
    ch' !! b = None ∧
    ch' !! name ic = Some cc' ∧
    h' !! cc' = Some (OLeaf JSONValueControl
                  (default JSONValueControl_default (spread pv !! name ic))).
Proof.
  intros Hthis Ha Hca Hb Hc Hba Hbc Hpa Hpc.
  assert (Hp : "__proto__" ∉ name <$> [ia; ic]).
  { simpl. intros [Heq | Hin]%elem_of_cons; [congruence |].
    apply elem_of_cons in Hin as [Heq | Hin]; [congruence |].
    by apply elem_of_nil in Hin. }
  destruct (setInputs_spec this [ia; ic] h ch pv old Hthis Hp)
    as (r & h' & ch' & Hrun & Hal & _ & Hr & Hdom & Hval).
  destruct (proj2 (Hdom (name ia))) as [ca' Hca']; [simpl; by left |].
  destruct (proj2 (Hdom (name ic))) as [cc' Hcc']; [simpl; right; by left |].
  destruct (Hval _ _ Hca') as [Hfa Hla]. destruct (Hval _ _ Hcc') as [_ Hlc].
  exists r, h', ch', ca', cc'. split; [done |].
  split; [done |]. split; [done |].
  split. { apply lookup_lt_Some in Hca. lia. }
  split.
  { rewrite Hla. do 3 f_equal.
    erewrite lookup_union_Some_l; [done |].
    rewrite lookup_omap, Ha. simpl. unfold leaf_toJsonValue. by rewrite Hca. }
  split.
  { destruct (ch' !! b) eqn:Hb'; [| done].
    assert (Hin : b ∈ name <$> [ia; ic]) by (apply Hdom; eauto).
    simpl in Hin. list_cases Hin; done. }
  split; [done |].
  rewrite Hlc. do 3 f_equal.
  apply lookup_union_r. by rewrite lookup_omap, Hc.
Qed.

(** Where every declared input has a child, rendering yields the editor of
    each child, in the order of the inputs. *)
Lemma mapM_renderInput (children : gmap string loc) (inputs : list InputItem) :
  (∀ item, item ∈ inputs → is_Some (children !! name item)) →
  ∃ items,
    mapM (InputsComp.renderInput children) inputs = Some items ∧
    length items = length inputs ∧
    ∀ i item, inputs !! i = Some item →
      ∃ child, children !! name item = Some child ∧
        items !! i = Some (VFragment (name item)
          (VPropertyView child (name item) (description item) "bottom")).
Proof.
  induction inputs as [| item inputs IH]; intros Hall.
  - exists []. split; [done |]. split; [done |]. intros i item Hi. done.
  - destruct IH as (items & Hm & Hlen & Hitems).
    { intros item' Hin. apply Hall. by right. }
    destruct (Hall item) as [child Hchild]; [by left |].
    exists (VFragment (name item)
              (VPropertyView child (name item) (description item) "bottom")
            :: items).
    split. { apply mapM_Some. constructor; [| by apply mapM_Some].
             unfold InputsComp.renderInput. by rewrite Hchild. }
    split; [simpl; by rewrite Hlen |].
    intros [| i] item' Hi; simpl in Hi.
    + injection Hi as <-. by exists child.
    + by apply Hitems.
Qed.


End DynamicMapFacts.

(** * Failure of the fetch *)
Section FetchFailureFacts.
Context `{!Externals}.















End FetchFailureFacts.

(** * Serialisation *)
Section SerialisationFacts.
Context `{!Externals}.

Lemma isMyCustomAction_queryLibraryUpdate (info : JSValue) :
  isMyCustomAction (LibraryQuery.queryLibraryUpdate info) "queryLibraryUpdate" = true.
Proof. done. Qed.

Lemma as_InputItems_dsl (inputs : list InputItem) :
  LibraryQuery.as_InputItems
    ((λ i, JObj (<["name" := JStr (name i)]>
                (<["description" := description i]> ∅))) <$> inputs)
  = Ok inputs.
Proof.
  induction inputs as [| [n d] inputs IH]; [done |].
  rewrite fmap_cons. simpl. rewrite IH.
  unfold LibraryQuery.as_InputItem, get_opt. simpl.
  rewrite lookup_insert_eq. simpl.
  by rewrite lookup_insert_ne, lookup_insert_eq by done.
Qed.

Lemma action_inputs_queryLibraryUpdate (inputs : list InputItem) :
  LibraryQuery.action_inputs (LibraryQuery.queryLibraryUpdate (dsl_of_inputs inputs))
  = Ok inputs.
Proof.
  unfold LibraryQuery.action_inputs, LibraryQuery.queryLibraryUpdate, dsl_of_inputs.
  simpl. unfold get_opt. simpl.
  rewrite lookup_insert_ne, lookup_insert_eq by done. simpl.
  rewrite lookup_singleton_eq. simpl. apply as_InputItems_dsl.
Qed.

Lemma childrenMap_lookup_other (k : string) :
  k ∉ ["libraryQueryId"; "libraryQueryRecordId"; "inputs"; "error"] →
  LibraryQuery.childrenMap !! k = None.
Proof.
  intros Hk. unfold LibraryQuery.childrenMap.
  rewrite !lookup_insert_ne; [apply lookup_empty | ..];
    intros <-; apply Hk; repeat constructor.
Qed.

(** The serialised children of a [LibraryQuery]: the two value leaves and the
    inputs; the [error] state is left out. *)
Lemma super_toJsonValue_LibraryQuery (h : heap) ch cq cr ci ce
    dq vq dr vr de ve chi pvi insi vals :
  (∀ k, k ∉ ["libraryQueryId"; "libraryQueryRecordId"; "inputs"; "error"] →
        ch !! k = None) →
  ch !! "libraryQueryId" = Some cq → h !! cq = Some (OLeaf (valueComp dq) vq) →
  ch !! "libraryQueryRecordId" = Some cr → h !! cr = Some (OLeaf (valueComp dr) vr) →
  ch !! "inputs" = Some ci → h !! ci = Some (OInputsComp chi pvi insi) →
  holds h chi vals →
  ch !! "error" = Some ce → h !! ce = Some (OLeaf (stateComp de) ve) →
  super_toJsonValue h ch
  = <["libraryQueryId" := vq]>
      (<["libraryQueryRecordId" := vr]> (<["inputs" := JObj vals]> ∅)).
Proof.
  intros Hother Hq Hlq Hr Hlr Hi Hli Hvals He Hle. apply map_eq. intros k.
  unfold super_toJsonValue. rewrite lookup_omap.
  destruct (decide (k = "libraryQueryId")) as [-> | Hnq].
  { rewrite Hq, lookup_insert_eq. simpl.
    unfold child_toJsonValue, leaf_toJsonValue. by rewrite Hlq. }
  destruct (decide (k = "libraryQueryRecordId")) as [-> | Hnr].
  { rewrite Hr, lookup_insert_ne, lookup_insert_eq by done. simpl.
    unfold child_toJsonValue, leaf_toJsonValue. by rewrite Hlr. }
  destruct (decide (k = "inputs")) as [-> | Hni].
  { rewrite Hi, !lookup_insert_ne, lookup_insert_eq by done. simpl.
    unfold child_toJsonValue. rewrite Hli.
    by rewrite (InputsComp_toJsonValue_holds h ci chi pvi insi vals). }
  rewrite !lookup_insert_ne, lookup_empty by done.
  destruct (decide (k = "error")) as [-> | Hne].
  { rewrite He. simpl. unfold child_toJsonValue, leaf_toJsonValue. by rewrite Hle. }
  rewrite Hother; [done |]. intros Hk. list_cases Hk; done.
Qed.

Lemma declared_inputs_lookup (given : gmap string JSValue)
    (inputs : list InputItem) (k : string) :
  declared_inputs given inputs !! k
  = if decide (k ∈ name <$> inputs)
    then Some (default JSONValueControl_default (given !! k)) else None.
Proof.
  unfold declared_inputs. induction inputs as [| item inputs IH].
  - rewrite decide_False; [done |]. by intros ?%elem_of_nil.
  - rewrite !fmap_cons. simpl. destruct (decide (k = name item)) as [-> | Hne].
    + rewrite lookup_insert_eq, decide_True; [done | by left].
    + rewrite lookup_insert_ne, IH by done.
      destruct (decide (k ∈ name <$> inputs)) as [Hin | Hnin].
      * rewrite decide_True; [done | by right].
      * rewrite decide_False; [done |]. by intros [? | ?]%elem_of_cons.
Qed.

Lemma declared_inputs_same_keys (given : gmap string JSValue)
    (inputs : list InputItem) :
  (∀ k, k ∈ name <$> inputs ↔ is_Some (given !! k)) →
  declared_inputs given inputs = given.
Proof.
  intros Hkeys. apply map_eq. intros k. rewrite declared_inputs_lookup.
  case_decide as Hk.
  - by apply Hkeys in Hk as [v ->].
  - destruct (given !! k) eqn:Hg; [| done]. destruct Hk. apply Hkeys. eauto.
Qed.

(** C4, amended.  A [LibraryQuery] constructed from a value matching its
    schema serialises to that value while the inputs document has not arrived.
    Once it has arrived, declaring no input named [__proto__], the node
    serialises to that value with its inputs replaced by one entry per
    declared name, holding the value given for that name or else the default
    of the control; this is the value itself when the declared names are
    exactly the keys of its inputs. *)
Theorem toJsonValue_round_trip (queryId recordId : string)
    (inputs : gmap string JSValue) (h : heap) :
  ∃ l h',
    LibraryQuery.new (LibraryQuery_value queryId recordId inputs) h = Ok (l, h') ∧
    LibraryQuery.toJsonValue h' l = LibraryQuery_value queryId recordId inputs ∧
    ∀ declared : list InputItem,
      "__proto__" ∉ name <$> declared →
      ∃ l2 h2,
        LibraryQuery.reduce
          (LibraryQuery.queryLibraryUpdate (dsl_of_inputs declared)) l h'
        = Ok (l2, h2) ∧
        LibraryQuery.toJsonValue h2 l2
        = LibraryQuery_value queryId recordId (declared_inputs inputs declared) ∧
        ((∀ k, k ∈ name <$> declared ↔ is_Some (inputs !! k)) →
         LibraryQuery.toJsonValue h2 l2
         = LibraryQuery_value queryId recordId inputs).
Proof.
  set (V := LibraryQuery_value queryId recordId inputs).
  destruct (new_spec V h) as (l & h' & ch & Hnew & Ha & Hl & Hthis & Hout & Hin).
  destruct (Hin "libraryQueryId" _ eq_refl) as (cq & Hq & _ & Hlq).
  destruct (Hin "libraryQueryRecordId" _ eq_refl) as (cr & Hr & _ & Hlr).
  destruct (Hin "inputs" _ eq_refl) as (ci & Hi & _ & (chi & Hli & Hholds)).
  destruct (Hin "error" _ eq_refl) as (ce & He & _ & Hle).
  simpl in Hlq, Hlr, Hli, Hle, Hholds.
  change (child_entries (JObj inputs)) with (delete "__proto__" inputs) in Hholds.
  assert (Hother : ∀ k,
    k ∉ ["libraryQueryId"; "libraryQueryRecordId"; "inputs"; "error"] →
    ch !! k = None).
  { intros k Hk. apply Hout. by apply childrenMap_lookup_other. }
  exists l, h'. split; [done |]. split.
  { unfold LibraryQuery.toJsonValue. rewrite Hthis.
    erewrite super_toJsonValue_LibraryQuery by done.
    reflexivity. }
  intros declared Hproto.
  destruct (setInputs_spec ci declared h' chi _ _ Hli Hproto)
    as (i2 & h1 & ch2 & Hset & Ha1 & Hi2 & Hli2 & Hdom2 & Hval2).
  pose proof (allocates_prefix _ _ _ Ha1) as Hp1.
  set (o2 := OLibraryQuery (<["inputs" := i2]> ch) true V).
  assert (Hrun : LibraryQuery.reduce
            (LibraryQuery.queryLibraryUpdate (dsl_of_inputs declared)) l h'
          = Ok (length h1, h1 ++ [o2])).
  { unfold LibraryQuery.reduce. simpl. unfold bind, read. rewrite Hthis. simpl.
    unfold LibraryQuery.reduce_queryLibraryUpdate.
    pose proof (action_inputs_queryLibraryUpdate declared) as Hact.
    unfold LibraryQuery.queryLibraryUpdate, customAction in Hact. rewrite Hact.
    pose proof (isMyCustomAction_queryLibraryUpdate (dsl_of_inputs declared)) as Hmy.
    unfold LibraryQuery.queryLibraryUpdate, customAction in Hmy.
    rewrite Hi. unfold bind. rewrite Hmy. by rewrite Hset. }
  assert (Hjson : LibraryQuery.toJsonValue (h1 ++ [o2]) (length h1)
                  = LibraryQuery_value queryId recordId
                      (declared_inputs inputs declared)).
  { unfold LibraryQuery.toJsonValue. rewrite lookup_alloc. simpl.
    assert (Hp2 : h' `prefix_of` (h1 ++ [o2])).
    { etrans; [done |]. by eexists. }
    assert (Hvals : holds (h1 ++ [o2]) ch2 (declared_inputs inputs declared)).
    { apply holds_prefix with h1; [by eexists |]. split.
      + intros k. rewrite Hdom2, declared_inputs_lookup.
        case_decide as Hk.
        * split; [intros _; by eexists | intros _; exact Hk].
        * split; [intros ?; contradiction | intros [? ?]; discriminate].
      + intros k c Hc. destruct (Hval2 k c Hc) as [_ Hleaf].
        rewrite (omap_leaf_toJsonValue_holds h' chi _ Hholds) in Hleaf.
        rewrite declared_inputs_lookup, decide_True by (apply Hdom2; eauto).
        eexists. split; [done |]. rewrite Hleaf. do 3 f_equal.
        transitivity ((delete "__proto__" inputs ∪ inputs) !! k); [reflexivity |].
        rewrite (map_subseteq_union (delete "__proto__" inputs) inputs);
          [done | apply delete_subseteq]. }
    rewrite (super_toJsonValue_LibraryQuery (h1 ++ [o2]) (<["inputs" := i2]> ch)
               cq cr i2 ce (JStr "") (JStr queryId) (JStr "latest")
               (JStr recordId) (JStr "") (JStr "") ch2 (JObj inputs) declared
               (declared_inputs inputs declared)); [done | ..].
    - intros k Hk. rewrite lookup_insert_ne; [by apply Hother |].
      intros <-. apply Hk. repeat constructor.
    - by rewrite lookup_insert_ne.
    - by apply prefix_lookup with h'.
    - by rewrite lookup_insert_ne.
    - by apply prefix_lookup with h'.
    - by rewrite lookup_insert_eq.
    - by apply lookup_app_l_Some.
    - done.
    - by rewrite lookup_insert_ne.
    - by apply prefix_lookup with h'. }
  exists (length h1), (h1 ++ [o2]). split; [done |]. split; [done |].
  intros Hkeys. rewrite Hjson. by rewrite declared_inputs_same_keys.
Qed.

End SerialisationFacts.

(** * InputsComp: the serialised value across [setInputs] *)
Section InputsCompMore.
Context `{!Externals}.

(** [setInputs] in terms of the values held: the new children hold, for each
    declared name, the value merged from the present children and the
    construction-time value. *)
Lemma setInputs_holds (this : loc) (inputs : list InputItem) (h : heap)
    ch pv old :
  h !! this = Some (OInputsComp ch pv old) →
  "__proto__" ∉ name <$> inputs →
  ∃ r h' ch',
    InputsComp.setInputs this inputs h = Ok (r, h') ∧
    h `prefix_of` h' ∧ length h ≤ r < length h' ∧
    h' !! r = Some (OInputsComp ch' pv inputs) ∧
    (∀ k c, ch' !! k = Some c → length h ≤ c) ∧
    holds h' ch'
      (declared_inputs (omap (leaf_toJsonValue h) ch ∪ spread pv) inputs).
Proof.
  intros Hthis Hp.
  destruct (setInputs_spec this inputs h ch pv old Hthis Hp)
    as (r & h' & ch' & Hrun & Ha & Hr & Hlook & Hdom & Hval).
  exists r, h', ch'. split; [done |].
  split; [by eapply allocates_prefix |]. split; [done |]. split; [done |].
  split. { intros k c Hc. by destruct (Hval k c Hc) as [[? _] _]. }
  split.
  - intros k. rewrite Hdom, declared_inputs_lookup. case_decide as Hk.
    + split; [intros _; by eexists | intros _; exact Hk].
    + split; [intros ?; contradiction | intros [? ?]; discriminate].
  - intros k c Hc. destruct (Hval k c Hc) as [_ Hleaf].
    rewrite declared_inputs_lookup, decide_True by (apply Hdom; eauto).
    eexists. split; [done | exact Hleaf].
Qed.

(** X1.  [setInputs(inputs)] on an [InputsComp], where no input is named
    [__proto__], returns a node whose declared inputs are [inputs], whose
    children are exactly the names declared by [inputs], and whose
    [toJsonValue()] has one entry per declared name: the value the node's
    child of that name held, else the value the node was constructed with for
    that name, else the default of the control. *)
Theorem setInputs_serialises_declared (this : loc) (inputs : list InputItem)
    (h : heap) ch pv old :
  h !! this = Some (OInputsComp ch pv old) →
  "__proto__" ∉ name <$> inputs →
  ∃ r h' ch',
    InputsComp.setInputs this inputs h = Ok (r, h') ∧
    h' !! r = Some (OInputsComp ch' pv inputs) ∧
    (∀ k, is_Some (ch' !! k) ↔ k ∈ name <$> inputs) ∧
    InputsComp_toJsonValue h' r
    = JObj (declared_inputs (omap (leaf_toJsonValue h) ch ∪ spread pv) inputs).
Proof.
  intros Hthis Hp.
  destruct (setInputs_holds this inputs h ch pv old Hthis Hp)
    as (r & h' & ch' & Hrun & _ & _ & Hr & _ & Hholds).
  exists r, h', ch'. split; [done |]. split; [done |]. split.
  - intros k. rewrite (proj1 Hholds k), declared_inputs_lookup.
    case_decide as Hk.
    + split; [intros _; exact Hk | intros _; by eexists].
    + split; [intros [? ?]; discriminate | intros ?; contradiction].
  - by eapply InputsComp_toJsonValue_holds.
Qed.

(** Declaring the same inputs over the declared values changes nothing. *)
Lemma declared_inputs_idemp (given pv : gmap string JSValue)
    (inputs : list InputItem) :
  declared_inputs (declared_inputs given inputs ∪ pv) inputs
  = declared_inputs given inputs.
Proof.
  apply map_eq. intros k. rewrite !declared_inputs_lookup.
  case_decide as Hk; [| done].
  erewrite lookup_union_Some_l; [done |].
  by rewrite declared_inputs_lookup, decide_True.
Qed.

(** The declared values depend on the set of declared names only. *)
Lemma declared_inputs_names (given : gmap string JSValue)
    (inputs1 inputs2 : list InputItem) :
  (∀ k, k ∈ name <$> inputs1 ↔ k ∈ name <$> inputs2) →
  declared_inputs given inputs1 = declared_inputs given inputs2.
Proof.
  intros Hsame. apply map_eq. intros k. rewrite !declared_inputs_lookup.
  destruct (decide (k ∈ name <$> inputs1)) as [H1 | H1].
  - rewrite decide_True; [done | by apply Hsame].
  - rewrite decide_False; [done |]. intros H2. by apply H1, Hsame.
Qed.

(** X2.  [setInputs] is idempotent on the serialised value: where no input
    is named [__proto__], calling it again with the same inputs on its own
    result gives a node with the same [toJsonValue()]. *)
Theorem setInputs_idempotent (this : loc) (inputs : list InputItem) (h : heap)
    ch pv old :
  h !! this = Some (OInputsComp ch pv old) →
  "__proto__" ∉ name <$> inputs →
  ∃ r1 h1 r2 h2,
    InputsComp.setInputs this inputs h = Ok (r1, h1) ∧
    InputsComp.setInputs r1 inputs h1 = Ok (r2, h2) ∧
    InputsComp_toJsonValue h2 r2 = InputsComp_toJsonValue h1 r1.
Proof.
  intros Hthis Hp.
  destruct (setInputs_holds this inputs h ch pv old Hthis Hp)
    as (r1 & h1 & ch1 & Hrun1 & _ & _ & Hr1 & _ & Hholds1).
  destruct (setInputs_holds r1 inputs h1 ch1 pv inputs Hr1 Hp)
    as (r2 & h2 & ch2 & Hrun2 & _ & _ & Hr2 & _ & Hholds2).
  exists r1, h1, r2, h2. split; [done |]. split; [done |].
  rewrite (InputsComp_toJsonValue_holds _ _ _ _ _ _ Hr1 Hholds1).
  rewrite (InputsComp_toJsonValue_holds _ _ _ _ _ _ Hr2 Hholds2).
  rewrite (omap_leaf_toJsonValue_holds _ _ _ Hholds1).
  by rewrite declared_inputs_idemp.
Qed.

(** X3.  The serialised value after [setInputs] depends on the set of
    declared names only: two lists of inputs that declare the same names,
    none of them [__proto__], in whatever order, with whatever descriptions
    and repetitions, give the same [toJsonValue()]. *)
Theorem setInputs_depends_on_names_only (this : loc)
    (inputs1 inputs2 : list InputItem) (h : heap) ch pv old :
  h !! this = Some (OInputsComp ch pv old) →
  "__proto__" ∉ name <$> inputs1 →
  (∀ k, k ∈ name <$> inputs1 ↔ k ∈ name <$> inputs2) →
  ∃ r1 h1 r2 h2,
    InputsComp.setInputs this inputs1 h = Ok (r1, h1) ∧
    InputsComp.setInputs this inputs2 h = Ok (r2, h2) ∧
    InputsComp_toJsonValue h1 r1 = InputsComp_toJsonValue h2 r2.
Proof.
  intros Hthis Hp1 Hsame.
  assert (Hp2 : "__proto__" ∉ name <$> inputs2) by (by rewrite <- Hsame).
  destruct (setInputs_holds this inputs1 h ch pv old Hthis Hp1)
    as (r1 & h1 & ch1 & Hrun1 & _ & _ & Hr1 & _ & Hholds1).
  destruct (setInputs_holds this inputs2 h ch pv old Hthis Hp2)
    as (r2 & h2 & ch2 & Hrun2 & _ & _ & Hr2 & _ & Hholds2).
  exists r1, h1, r2, h2. split; [done |]. split; [done |].
  rewrite (InputsComp_toJsonValue_holds _ _ _ _ _ _ Hr1 Hholds1).
  rewrite (InputsComp_toJsonValue_holds _ _ _ _ _ _ Hr2 Hholds2).
  by rewrite (declared_inputs_names _ inputs1 inputs2).
Qed.

(** X4.  A value is kept only as long as its name stays declared: when
    [setInputs] drops the name [b] and a later [setInputs] declares [b] again,
    no input being named [__proto__], the child for [b] holds the value the
    node was constructed with for [b] (or the default of the control),
    whatever the child for [b] held before it was dropped. *)
Theorem setInputs_forgets_dropped_edit (this : loc)
    (inputs1 inputs2 : list InputItem) (b : string) (h : heap) ch pv old :
  h !! this = Some (OInputsComp ch pv old) →
  "__proto__" ∉ name <$> inputs1 →
  "__proto__" ∉ name <$> inputs2 →
  b ∉ name <$> inputs1 →
  b ∈ name <$> inputs2 →
  ∃ r1 h1 r2 h2 ch2 cb,
    InputsComp.setInputs this inputs1 h = Ok (r1, h1) ∧
    InputsComp.setInputs r1 inputs2 h1 = Ok (r2, h2) ∧
    h2 !! r2 = Some (OInputsComp ch2 pv inputs2) ∧
    ch2 !! b = Some cb ∧
    h2 !! cb = Some (OLeaf JSONValueControl
                 (default JSONValueControl_default (spread pv !! b))).
Proof.
  intros Hthis Hp1 Hp2 Hout Hin.
  destruct (setInputs_holds this inputs1 h ch pv old Hthis Hp1)
    as (r1 & h1 & ch1 & Hrun1 & _ & _ & Hr1 & _ & Hholds1).
  destruct (setInputs_holds r1 inputs2 h1 ch1 pv inputs1 Hr1 Hp2)
    as (r2 & h2 & ch2 & Hrun2 & _ & _ & Hr2 & _ & [Hdom2 Hval2]).
  rewrite (omap_leaf_toJsonValue_holds _ _ _ Hholds1) in Hdom2, Hval2.
  destruct (proj2 (Hdom2 b)) as [cb Hcb].
  { rewrite declared_inputs_lookup, decide_True by done. by eexists. }
  destruct (Hval2 b cb Hcb) as (v & Hv & Hleaf).
  exists r1, h1, r2, h2, ch2, cb. split; [done |]. split; [done |].
  split; [done |]. split; [done |].
  rewrite Hleaf. do 2 f_equal.
  rewrite declared_inputs_lookup, decide_True in Hv by done.
  injection Hv as <-. f_equal.
  apply lookup_union_r. by rewrite declared_inputs_lookup, decide_False.
Qed.

(** X5.  [setInputs([])] returns a node without children, which serialises
    to the empty object and renders the "no input" placeholder, the wrapper
    with its label and the translated text, whatever children the node
    had. *)
Theorem setInputs_empty_renders_placeholder (this : loc) (h : heap) ch pv old :
  h !! this = Some (OInputsComp ch pv old) →
  ∃ r h',
    InputsComp.setInputs this [] h = Ok (r, h') ∧
    h' !! r = Some (OInputsComp ∅ pv []) ∧
    InputsComp_toJsonValue h' r = JObj ∅ ∧
    InputsComp.getPropertyView ∅ []
    = Some (VElem "QueryConfigWrapper" []
              [ VElem "QueryConfigLabel" [] [];
                VElem "NoInputsWrapper" []
                  [VText (JStr (trans "queryLibrary.noInput"))] ]).
Proof.
  intros Hthis.
  destruct (setInputs_holds this [] h ch pv old Hthis)
    as (r & h' & ch' & Hrun & _ & _ & Hr & _ & Hholds).
  { by intros ?%elem_of_nil. }
  assert (ch' = ∅) as ->.
  { apply map_eq. intros k. rewrite lookup_empty.
    destruct (ch' !! k) as [c |] eqn:Hc; [| done].
    destruct (proj2 Hholds k c Hc) as (v & Hv & _).
    rewrite declared_inputs_lookup in Hv. case_decide as Hk; [| done].
    by apply elem_of_nil in Hk. }
  exists r, h'. split; [done |]. split; [done |]. split; [| done].
  rewrite (InputsComp_toJsonValue_holds _ _ _ _ _ _ Hr Hholds). reflexivity.
Qed.

(** X6.  After [setInputs(inputs)], where no input is named [__proto__], the
    property view skips no input and does not throw: it is an array as long
    as [inputs] whose [i]-th element is the property view of the child named
    by the [i]-th input, labelled with that name, with the input's
    description as tooltip and placed at the bottom. *)
Theorem setInputs_renders_every_input (this : loc) (inputs : list InputItem)
    (h : heap) ch pv old (i : nat) (item : InputItem) :
  h !! this = Some (OInputsComp ch pv old) →
  "__proto__" ∉ name <$> inputs →
  inputs !! i = Some item →
  ∃ r h' ch' c v items,
    InputsComp.setInputs this inputs h = Ok (r, h') ∧
    h' !! r = Some (OInputsComp ch' pv inputs) ∧
    ch' !! name item = Some c ∧
    h' !! c = Some (OLeaf JSONValueControl v) ∧
    InputsComp.getPropertyView ch' inputs = Some (VArray items) ∧
    length items = length inputs ∧
    items !! i = Some (VFragment (name item)
                   (VPropertyView c (name item) (description item) "bottom")).
Proof.
  intros Hthis Hp Hi.
  destruct (setInputs_holds this inputs h ch pv old Hthis Hp)
    as (r & h' & ch' & Hrun & _ & _ & Hr & _ & [Hdom Hval]).
  destruct (mapM_renderInput ch' inputs) as (items & Hm & Hlen & Hitems).
  { intros item' Hin. apply Hdom.
    rewrite declared_inputs_lookup, decide_True; [by eexists |].
    apply list_elem_of_fmap. by exists item'. }
  destruct (Hitems i item Hi) as (c & Hc & Hfrag).
  destruct (Hval _ _ Hc) as (v & _ & Hleaf).
  exists r, h', ch', c, v, items. split; [done |]. split; [done |].
  split; [done |]. split; [done |].
  unfold InputsComp.getPropertyView.
  rewrite decide_False by (apply lookup_lt_Some in Hi; lia).
  rewrite Hm. done.
Qed.

(** X7.  Construction of an [InputsComp] from a value makes one child per
    own enumerable key of the value other than [__proto__] (the properties
    of an object, the indices of an array or of a string, none for the other
    values), and the node serialises back to those entries; having no
    declared inputs yet, it renders the "no input" placeholder, the wrapper
    with its label and the translated text, even when it has children. *)
Theorem new_InputsComp_round_trip (value : JSValue) (h : heap) :
  ∃ r h' ch,
    new_InputsComp value h = Ok (r, h') ∧
    h' !! r = Some (OInputsComp ch value []) ∧
    (∀ k, is_Some (ch !! k) ↔ is_Some (spread value !! k) ∧ k ≠ "__proto__") ∧
    InputsComp_toJsonValue h' r = JObj (delete "__proto__" (spread value)) ∧
    InputsComp.getPropertyView ch []
    = Some (VElem "QueryConfigWrapper" []
              [ VElem "QueryConfigLabel" [] [];
                VElem "NoInputsWrapper" []
                  [VText (JStr (trans "queryLibrary.noInput"))] ]).
Proof.
  destruct (new_InputsComp_spec value h)
    as (r & h' & ch & Hrun & _ & _ & Hr & Hholds).
  assert (Hs : child_entries value = delete "__proto__" (spread value))
    by (unfold child_entries; by destruct value).
  rewrite Hs in Hholds.
  exists r, h', ch. split; [done |]. split; [done |]. split.
  - intros k. rewrite (proj1 Hholds k).
    destruct (decide (k = "__proto__")) as [-> | Hne].
    + rewrite lookup_delete_eq. split; [by intros [? ?] | by intros [_ ?]].
    + rewrite lookup_delete_ne by done. split; [done | by intros [? _]].
  - split; [| done]. by eapply InputsComp_toJsonValue_holds.
Qed.

End InputsCompMore.

(** * LibraryQuery in terms of what it holds *)
Section LibraryQueryMore.
Context `{!Externals}.

(** What a node holds is not affected by later allocations. *)
Lemma represents_prefix (h h' : heap) (l : loc) (s : LQ) :
  h `prefix_of` h' → represents h l s → represents h' l s.
Proof.
  intros Hp (ch & cq & cr & ci & ce & dq & dr & de & ? & ? & ? & ? & ? & ? & ?
             & ? & ? & ? & ?).
  exists ch, cq, cr, ci, ce, dq, dr, de.
  repeat (split; [by eauto using prefix_lookup, holds_prefix |]).
  by eapply prefix_lookup.
Qed.

Lemma represents_wf (h : heap) (l : loc) (s : LQ) :
  represents h l s → wf_LibraryQuery h l.
Proof.
  intros (ch & cq & cr & ci & ce & dq & dr & de & ? & ? & ? & ? & ? & ? & ?
          & ? & ? & ? & ?).
  exists ch, (lq_isReady s), (lq_value s), cq, cr, ci, ce.
  unfold is_leaf, is_InputsComp. repeat split; eauto.
Qed.

(** What a newly constructed [LibraryQuery] holds. *)
Lemma new_represents (value : JSValue) (h : heap) :
  ∃ l h' chi,
    LibraryQuery.new value h = Ok (l, h') ∧ h `prefix_of` h' ∧
    represents h' l
      {| lq_queryId := default (JStr "") (hasOwn value "libraryQueryId");
         lq_recordId := default (JStr "latest") (hasOwn value "libraryQueryRecordId");
         lq_error := default (JStr "") (hasOwn value "error");
         lq_children := chi;
         lq_inputs := child_entries (default JUndefined (hasOwn value "inputs"));
         lq_params := default JUndefined (hasOwn value "inputs");
         lq_declared := [];
         lq_isReady := false;
         lq_value := value |}.
Proof.
  destruct (new_spec value h) as (l & h' & ch & Hnew & Ha & Hl & Hthis & Hout & Hin).
  destruct (Hin "libraryQueryId" _ eq_refl) as (cq & Hq & _ & Hlq).
  destruct (Hin "libraryQueryRecordId" _ eq_refl) as (cr & Hr & _ & Hlr).
  destruct (Hin "inputs" _ eq_refl) as (ci & Hi & _ & (chi & Hli & Hholds)).
  destruct (Hin "error" _ eq_refl) as (ce & He & _ & Hle).
  simpl in Hlq, Hlr, Hli, Hle, Hholds.
  exists l, h', chi. split; [done |]. split; [by eapply allocates_prefix |].
  exists ch, cq, cr, ci, ce, (JStr ""), (JStr "latest"), (JStr ""). simpl.
  split; [exact Hthis |].
  split. { intros k Hk. apply Hout. by apply childrenMap_lookup_other. }
  split; [exact Hq |]. split; [exact Hlq |].
  split; [exact Hr |]. split; [exact Hlr |].
  split; [exact Hi |]. split; [exact Hli |].
  split; [exact Hholds |]. split; [exact He | exact Hle].
Qed.

(** [toJsonValue()] reads what the node holds. *)
Lemma toJsonValue_represents (h : heap) (l : loc) (s : LQ) :
  represents h l s → LibraryQuery.toJsonValue h l = serialised s.
Proof.
  intros (ch & cq & cr & ci & ce & dq & dr & de & Hl & Hother & Hq & Hlq & Hr
          & Hlr & Hi & Hli & Hholds & He & Hle).
  unfold LibraryQuery.toJsonValue, serialised. rewrite Hl.
  erewrite super_toJsonValue_LibraryQuery by done.
  destruct (lq_isReady s); reflexivity.
Qed.

(** [getInputsView] reads what the node holds. *)
Lemma getInputsView_represents (h : heap) (l : loc) (s : LQ) (info : JSValue) :
  represents h l s →
  LibraryQuery.getInputsView h l info
  = if negb (truthy (lq_queryId s)) then Some VNull
    else if negb (truthy info) then
      Some (if truthy (lq_error s) then LibraryQuery.ErrorMessage (lq_error s)
            else LibraryQuery.Spin)
    else InputsComp.getPropertyView (lq_children s) (lq_declared s).
Proof.
  intros (ch & cq & cr & ci & ce & dq & dr & de & Hl & Hother & Hq & Hlq & Hr
          & Hlr & Hi & Hli & Hholds & He & Hle).
  unfold LibraryQuery.getInputsView, LibraryQuery.child_view.
  rewrite Hl. simpl. rewrite Hq. simpl. rewrite Hlq. simpl.
  destruct (truthy (lq_queryId s)); simpl; [| reflexivity].
  destruct (truthy info); simpl.
  - rewrite Hi. simpl. by rewrite Hli.
  - rewrite He. simpl. rewrite Hle. simpl.
    destruct (truthy (lq_error s)); reflexivity.
Qed.

End LibraryQueryMore.

(** * Reduction in terms of what the node holds *)
Section Transitions.
Context `{!Externals}.

(** On a [LibraryQuery], the custom action takes the first branch of
    [reduce]. *)
Lemma reduce_custom_eq (action : CompAction) (this : loc) ch ready value
    (h : heap) :
  isMyCustomAction action "queryLibraryUpdate" = true →
  h !! this = Some (OLibraryQuery ch ready value) →
  LibraryQuery.reduce action this h
  = LibraryQuery.reduce_queryLibraryUpdate ch ready value action h.
Proof.
  intros Hmy Hthis. unfold LibraryQuery.reduce.
  destruct action as [ty p v]. unfold isMyCustomAction in Hmy. simpl in *.
  destruct ty; try discriminate. destruct p; [| discriminate].
  simpl. unfold bind, read. rewrite Hthis. simpl.
  unfold isMyCustomAction. simpl. by rewrite Hmy.
Qed.

(** The [queryLibraryUpdate] action, on what the node holds. *)
Lemma update_represents (h : heap) (l : loc) (s : LQ) (action : CompAction)
    (items : list InputItem) :
  represents h l s →
  isMyCustomAction action "queryLibraryUpdate" = true →
  LibraryQuery.action_inputs action = Ok items →
  "__proto__" ∉ name <$> items →
  ∃ l2 h2 chi2,
    LibraryQuery.reduce action l h = Ok (l2, h2) ∧ h `prefix_of` h2 ∧
    represents h2 l2
      {| lq_queryId := lq_queryId s;
         lq_recordId := lq_recordId s;
         lq_error := lq_error s;
         lq_children := chi2;
         lq_inputs :=
           declared_inputs (lq_inputs s ∪ spread (lq_params s)) items;
         lq_params := lq_params s;
         lq_declared := items;
         lq_isReady := true;
         lq_value := lq_value s |}.
Proof.
  intros (ch & cq & cr & ci & ce & dq & dr & de & Hl & Hother & Hq & Hlq & Hr
          & Hlr & Hi & Hli & Hholds & He & Hle) Hmy Hitems Hproto.
  rewrite (reduce_custom_eq action l ch _ _ h Hmy Hl).
  unfold LibraryQuery.reduce_queryLibraryUpdate. rewrite Hi, Hitems.
  destruct (setInputs_holds ci items h _ _ _ Hli Hproto)
    as (i2 & h1 & chi2 & Hset & Hp1 & Hfresh & Hli2 & _ & Hholds2).
  rewrite (omap_leaf_toJsonValue_holds _ _ _ Hholds) in Hholds2.
  unfold bind. rewrite Hset. unfold setFieldsNoTypeCheck, alloc.
  set (o2 := OLibraryQuery (<["inputs" := i2]> ch) true (lq_value s)).
  assert (Hp2 : h `prefix_of` (h1 ++ [o2])).
  { etrans; [done |]. by eexists. }
  exists (length h1), (h1 ++ [o2]), chi2. split; [done |]. split; [done |].
  exists (<["inputs" := i2]> ch), cq, cr, i2, ce, dq, dr, de. simpl.
  split; [apply lookup_alloc |].
  split. { intros k Hk. rewrite lookup_insert_ne; [by apply Hother |].
           intros <-. apply Hk. repeat constructor. }
  split; [by rewrite lookup_insert_ne |].
  split; [by apply prefix_lookup with h |].
  split; [by rewrite lookup_insert_ne |].
  split; [by apply prefix_lookup with h |].
  split; [by rewrite lookup_insert_eq |].
  split; [by apply lookup_app_l_Some |].
  split; [apply holds_prefix with h1; [by eexists | done] |].
  split; [by rewrite lookup_insert_ne |].
  by apply prefix_lookup with h.
Qed.

(** A change of the value of a leaf child allocates the new leaf and the new
    node. *)
Lemma reduce_change_leaf (k : string) (v : JSValue) (this c : loc)
    ch ready value cl v0 (h : heap) :
  h !! this = Some (OLibraryQuery ch ready value) →
  ch !! k = Some c →
  h !! c = Some (OLeaf cl v0) →
  LibraryQuery.reduce (changeChildAction k v) this h
  = Ok (S (length h),
        (h ++ [OLeaf cl v]) ++ [OLibraryQuery (<[k := length h]> ch) ready value]).
Proof.
  intros Hthis Hc Hleaf. unfold LibraryQuery.reduce. simpl.
  unfold bind, read. rewrite Hthis. simpl. rewrite Hc, Hleaf. simpl.
  unfold LibraryQuery.setChild.
  rewrite decide_False by (apply lookup_lt_Some in Hleaf; lia).
  unfold setFieldsNoTypeCheck, alloc. do 2 f_equal.
  rewrite length_app. simpl. lia.
Qed.

(** A change of the query id, on what the node holds. *)
Lemma change_queryId_represents (h : heap) (l : loc) (s : LQ) (v : JSValue) :
  represents h l s →
  ∃ l2 h2,
    LibraryQuery.reduce (changeChildAction "libraryQueryId" v) l h = Ok (l2, h2) ∧
    h `prefix_of` h2 ∧
    represents h2 l2
      {| lq_queryId := v;
         lq_recordId := lq_recordId s;
         lq_error := lq_error s;
         lq_children := lq_children s;
         lq_inputs := lq_inputs s;
         lq_params := lq_params s;
         lq_declared := lq_declared s;
         lq_isReady := lq_isReady s;
         lq_value := lq_value s |}.
Proof.
  intros (ch & cq & cr & ci & ce & dq & dr & de & Hl & Hother & Hq & Hlq & Hr
          & Hlr & Hi & Hli & Hholds & He & Hle).
  rewrite (reduce_change_leaf _ v l cq _ _ _ _ _ h Hl Hq Hlq).
  set (h1 := h ++ [OLeaf (valueComp dq) v]).
  set (o2 := OLibraryQuery (<["libraryQueryId" := length h]> ch)
               (lq_isReady s) (lq_value s)).
  assert (Hp : h `prefix_of` (h1 ++ [o2])).
  { exists [OLeaf (valueComp dq) v; o2]. subst h1. by rewrite <- app_assoc. }
  exists (S (length h)), (h1 ++ [o2]). split; [done |]. split; [done |].
  exists (<["libraryQueryId" := length h]> ch), (length h), cr, ci, ce, dq, dr, de.
  simpl.
  split. { replace (S (length h)) with (length h1); [apply lookup_alloc |].
           subst h1. rewrite length_app. simpl. lia. }
  split. { intros k Hk. rewrite lookup_insert_ne; [by apply Hother |].
           intros <-. apply Hk. repeat constructor. }
  split; [by rewrite lookup_insert_eq |].
  split; [apply lookup_app_l_Some; apply lookup_alloc |].
  split; [by rewrite lookup_insert_ne |].
  split; [by apply prefix_lookup with h |].
  split; [by rewrite lookup_insert_ne |].
  split; [by apply prefix_lookup with h |].
  split; [by apply holds_prefix with h |].
  split; [by rewrite lookup_insert_ne |].
  by apply prefix_lookup with h.
Qed.

(** The failure callback of the fetch, on what the node holds. *)
Lemma onError_represents (h : heap) (l : loc) (s : LQ) (message : string) :
  represents h l s →
  ∃ l2 h2,
    LibraryQuery.reduce (LibraryQuery.onErrorCallback message) l h = Ok (l2, h2) ∧
    h `prefix_of` h2 ∧
    represents h2 l2
      {| lq_queryId := lq_queryId s;
         lq_recordId := lq_recordId s;
         lq_error := JStr message;
         lq_children := lq_children s;
         lq_inputs := lq_inputs s;
         lq_params := lq_params s;
         lq_declared := lq_declared s;
         lq_isReady := lq_isReady s;
         lq_value := lq_value s |}.
Proof.
  intros (ch & cq & cr & ci & ce & dq & dr & de & Hl & Hother & Hq & Hlq & Hr
          & Hlr & Hi & Hli & Hholds & He & Hle).
  unfold LibraryQuery.onErrorCallback.
  change (wrapChildAction "error" (changeValueAction (JStr message)))
    with (changeChildAction "error" (JStr message)).
  rewrite (reduce_change_leaf _ (JStr message) l ce _ _ _ _ _ h Hl He Hle).
  set (h1 := h ++ [OLeaf (stateComp de) (JStr message)]).
  set (o2 := OLibraryQuery (<["error" := length h]> ch)
               (lq_isReady s) (lq_value s)).
  assert (Hp : h `prefix_of` (h1 ++ [o2])).
  { exists [OLeaf (stateComp de) (JStr message); o2]. subst h1.
    by rewrite <- app_assoc. }
  exists (S (length h)), (h1 ++ [o2]). split; [done |]. split; [done |].
  exists (<["error" := length h]> ch), cq, cr, ci, (length h), dq, dr, de.
  simpl.
  split. { replace (S (length h)) with (length h1); [apply lookup_alloc |].
           subst h1. rewrite length_app. simpl. lia. }
  split. { intros k Hk. rewrite lookup_insert_ne; [by apply Hother |].
           intros <-. apply Hk. repeat constructor. }
  split; [by rewrite lookup_insert_ne |].
  split; [by apply prefix_lookup with h |].
  split; [by rewrite lookup_insert_ne |].
  split; [by apply prefix_lookup with h |].
  split; [by rewrite lookup_insert_ne |].
  split; [by apply prefix_lookup with h |].
  split; [by apply holds_prefix with h |].
  split; [by rewrite lookup_insert_eq |].
  apply lookup_app_l_Some. apply lookup_alloc.
Qed.

Lemma holds_insert (h : heap) ch vals (a : string) (c : loc) (v : JSValue) o :
  holds h ch vals → is_Some (ch !! a) → length h ≤ c →
  holds ((h ++ [OLeaf JSONValueControl v]) ++ o) (<[a := length h]> ch)
    (<[a := v]> vals).
Proof.
  intros [Hdom Hval] Ha _. split.
  - intros k. destruct (decide (k = a)) as [-> | Hne].
    + rewrite !lookup_insert_eq. split; eauto.
    + by rewrite !lookup_insert_ne.
  - intros k c0. destruct (decide (k = a)) as [-> | Hne].
    + rewrite !lookup_insert_eq. intros [= <-]. exists v. split; [done |].
      apply lookup_app_l_Some. apply lookup_alloc.
    + rewrite !lookup_insert_ne by done. intros Hc0.
      destruct (Hval k c0 Hc0) as (v0 & ? & ?). exists v0. split; [done |].
      apply lookup_app_l_Some. by apply lookup_app_l_Some.
Qed.

(** An edit of one input child, on what the node holds. *)
Lemma edit_input_represents (h : heap) (l : loc) (s : LQ) (a : string)
    (v : JSValue) :
  represents h l s → is_Some (lq_inputs s !! a) →
  ∃ l2 h2 chi2,
    LibraryQuery.reduce (wrapChildAction "inputs" (changeChildAction a v)) l h
    = Ok (l2, h2) ∧
    h `prefix_of` h2 ∧
    represents h2 l2
      {| lq_queryId := lq_queryId s;
         lq_recordId := lq_recordId s;
         lq_error := lq_error s;
         lq_children := chi2;
         lq_inputs := <[a := v]> (lq_inputs s);
         lq_params := lq_params s;
         lq_declared := lq_declared s;
         lq_isReady := lq_isReady s;
         lq_value := lq_value s |}.
Proof.
  intros (ch & cq & cr & ci & ce & dq & dr & de & Hl & Hother & Hq & Hlq & Hr
          & Hlr & Hi & Hli & Hholds & He & Hle) Ha.
  destruct (proj2 (proj1 Hholds a) Ha) as [c Hc].
  destruct (proj2 Hholds a c Hc) as (v0 & _ & Hleaf).
  set (oi := OInputsComp (<[a := length h]> (lq_children s)) (lq_params s)
               (lq_declared s)).
  set (o2 := OLibraryQuery (<["inputs" := S (length h)]> ch)
               (lq_isReady s) (lq_value s)).
  set (h1 := h ++ [OLeaf JSONValueControl v]).
  assert (Hlen1 : length h1 = S (length h)).
  { subst h1. rewrite length_app. simpl. lia. }
  assert (Hrun :
    LibraryQuery.reduce (wrapChildAction "inputs" (changeChildAction a v)) l h
    = Ok (S (S (length h)), (h1 ++ [oi]) ++ [o2])).
  { unfold LibraryQuery.reduce. simpl. unfold bind, read.
    rewrite Hl. simpl. rewrite Hi, Hli. simpl. rewrite Hc, Hleaf. simpl.
    unfold LibraryQuery.setChild.
    rewrite decide_False by (apply lookup_lt_Some in Hleaf; lia).
    unfold setFieldsNoTypeCheck, alloc. simpl.
    rewrite decide_False
      by (apply lookup_lt_Some in Hli; rewrite length_app; simpl; lia).
    simpl. rewrite !length_app. simpl. subst h1 oi o2.
    do 2 f_equal; [lia |]. do 3 f_equal. do 2 f_equal. lia. }
  assert (Hp : h `prefix_of` ((h1 ++ [oi]) ++ [o2])).
  { exists [OLeaf JSONValueControl v; oi; o2]. subst h1.
    by rewrite <- !app_assoc. }
  exists (S (S (length h))), ((h1 ++ [oi]) ++ [o2]),
    (<[a := length h]> (lq_children s)).
  split; [done |]. split; [done |].
  exists (<["inputs" := S (length h)]> ch), cq, cr, (S (length h)), ce, dq, dr, de.
  simpl.
  split. { replace (S (S (length h))) with (length (h1 ++ [oi]));
             [apply lookup_alloc |].
           rewrite length_app, Hlen1. simpl. lia. }
  split. { intros k Hk. rewrite lookup_insert_ne; [by apply Hother |].
           intros <-. apply Hk. repeat constructor. }
  split; [by rewrite lookup_insert_ne |].
  split; [by apply prefix_lookup with h |].
  split; [by rewrite lookup_insert_ne |].
  split; [by apply prefix_lookup with h |].
  split; [by rewrite lookup_insert_eq |].
  split. { apply lookup_app_l_Some. rewrite <- Hlen1. apply lookup_alloc. }
  split. { subst h1. rewrite <- app_assoc.
           apply (holds_insert h _ _ a (length h) v); [done | eauto | lia]. }
  split; [by rewrite lookup_insert_ne |].
  by apply prefix_lookup with h.
Qed.

End Transitions.

(** * LibraryQuery: construction, updates, edits and effects *)
Section LibraryQueryExtras.
Context `{!Externals}.

(** Without a record the declared inputs default to the empty array. *)
Lemma action_inputs_without_inputs (info : JSValue) :
  nullish (get_opt info "inputs") = true →
  LibraryQuery.action_inputs (LibraryQuery.queryLibraryUpdate info) = Ok [].
Proof.
  intros Hn. unfold LibraryQuery.action_inputs, LibraryQuery.queryLibraryUpdate.
  simpl. unfold get_opt at 2. simpl.
  rewrite lookup_insert_ne, lookup_insert_eq by done. simpl.
  unfold coalesce. by rewrite Hn.
Qed.

Lemma declared_inputs_nil (given : gmap string JSValue) :
  declared_inputs given [] = ∅.
Proof. reflexivity. Qed.

(** X8.  A newly constructed [LibraryQuery] is not ready and serialises to
    the query id of the value (else the empty string), the record id of the
    value (else "latest") and the [inputs] of the value as they are; the
    [error] child is not serialised.  Without a record, its inputs view is
    empty when the query id is falsy, else the stored error in red inside the
    wrapper when there is one, else the spinner. *)
Theorem new_fills_defaults (value : JSValue) (h : heap) :
  ∃ l h' ch,
    LibraryQuery.new value h = Ok (l, h') ∧
    h' !! l = Some (OLibraryQuery ch false value) ∧
    LibraryQuery.toJsonValue h' l
    = JObj (<["libraryQueryId" :=
                default (JStr "") (hasOwn value "libraryQueryId")]>
           (<["libraryQueryRecordId" :=
                default (JStr "latest") (hasOwn value "libraryQueryRecordId")]>
           (<["inputs" := get_opt value "inputs"]> ∅))) ∧
    LibraryQuery.getInputsView h' l JUndefined
    = Some (if negb (truthy (default (JStr "") (hasOwn value "libraryQueryId")))
            then VNull
            else if truthy (default (JStr "") (hasOwn value "error"))
                 then VElem "QueryConfigWrapper" []
                        [ VElem "QueryConfigLabel" [] [];
                          VElem "NoInputsWrapper" [("color", "#ff4d4f")]
                            [VText (default (JStr "") (hasOwn value "error"))] ]
                 else VElem "Spin" []
                        [VElem "LoadingOutlined" [("fontSize", "24")] []]).
Proof.
  destruct (new_represents value h) as (l & h' & chi & Hnew & _ & Hrep).
  pose proof Hrep as (ch & cq & cr & ci & ce & dq & dr & de & Hl & _).
  simpl in Hl.
  exists l, h', ch. split; [done |]. split; [done |]. split.
  - by rewrite (toJsonValue_represents _ _ _ Hrep).
  - rewrite (getInputsView_represents _ _ _ JUndefined Hrep). simpl.
    by destruct (truthy (default (JStr "") (hasOwn value "libraryQueryId"))).
Qed.

(** X9.  Reducing a [queryLibraryUpdate] action whose record declares
    [items], none of them named [__proto__], gives a ready node with the
    same query id and record id, whose serialised inputs have one entry per
    declared name: the value the input child of that name held, else the
    construction-time value of that name, else the default of the control. *)
Theorem queryLibraryUpdate_serialises_declared (h : heap) (l : loc) (s : LQ)
    (action : CompAction) (items : list InputItem) :
  represents h l s →
  isMyCustomAction action "queryLibraryUpdate" = true →
  LibraryQuery.action_inputs action = Ok items →
  "__proto__" ∉ name <$> items →
  ∃ l2 h2 ch2,
    LibraryQuery.reduce action l h = Ok (l2, h2) ∧
    h2 !! l2 = Some (OLibraryQuery ch2 true (lq_value s)) ∧
    LibraryQuery.toJsonValue h2 l2
    = JObj (<["libraryQueryId" := lq_queryId s]>
           (<["libraryQueryRecordId" := lq_recordId s]>
           (<["inputs" :=
                JObj (declared_inputs (lq_inputs s ∪ spread (lq_params s)) items)]>
            ∅))).
Proof.
  intros Hrep Hmy Hitems Hproto.
  destruct (update_represents h l s action items Hrep Hmy Hitems Hproto)
    as (l2 & h2 & chi2 & Hrun & _ & Hrep2).
  pose proof Hrep2 as (ch2 & cq & cr & ci & ce & dq & dr & de & Hl2 & _).
  simpl in Hl2.
  exists l2, h2, ch2. split; [done |]. split; [done |].
  by rewrite (toJsonValue_represents _ _ _ Hrep2).
Qed.

(** X10.  A [queryLibraryUpdate] action without a record (its [dsl], or the
    [inputs] of its [dsl], is nullish) still makes the node ready: the inputs
    child loses all its children and the node serialises its inputs as the
    empty object, whatever inputs it was constructed with. *)
Theorem queryLibraryUpdate_without_record (h : heap) (l : loc) (s : LQ)
    (info : JSValue) :
  represents h l s →
  nullish (get_opt info "inputs") = true →
  ∃ l2 h2 ch2 i2,
    LibraryQuery.reduce (LibraryQuery.queryLibraryUpdate info) l h = Ok (l2, h2) ∧
    h2 !! l2 = Some (OLibraryQuery ch2 true (lq_value s)) ∧
    ch2 !! "inputs" = Some i2 ∧
    h2 !! i2 = Some (OInputsComp ∅ (lq_params s) []) ∧
    LibraryQuery.toJsonValue h2 l2
    = JObj (<["libraryQueryId" := lq_queryId s]>
           (<["libraryQueryRecordId" := lq_recordId s]>
           (<["inputs" := JObj ∅]> ∅))).
Proof.
  intros Hrep Hn.
  destruct (update_represents h l s (LibraryQuery.queryLibraryUpdate info) []
              Hrep (isMyCustomAction_queryLibraryUpdate info)
              (action_inputs_without_inputs info Hn))
    as (l2 & h2 & chi2 & Hrun & _ & Hrep2).
  { by intros ?%elem_of_nil. }
  pose proof Hrep2 as (ch2 & cq & cr & i2 & ce & dq & dr & de & Hl2 & _ & _ & _
                       & _ & _ & Hi2 & Hli2 & Hholds2 & _).
  simpl in Hl2, Hli2, Hholds2.
  assert (chi2 = ∅) as ->.
  { apply map_eq. intros k. rewrite lookup_empty.
    destruct (chi2 !! k) as [c |] eqn:Hc; [| done].
    destruct (proj2 Hholds2 k c Hc) as (v & Hv & _).
    by rewrite declared_inputs_nil, lookup_empty in Hv. }
  exists l2, h2, ch2, i2. split; [done |]. split; [done |].
  split; [done |]. split; [done |].
  by rewrite (toJsonValue_represents _ _ _ Hrep2).
Qed.

(** X11.  After an update without a record, the update that brings the
    record, which declares no input named [__proto__], takes every value
    from the value the node was constructed with: the values the input
    children held before the first update are gone. *)
Theorem queryLibraryUpdate_after_empty_update (h : heap) (l : loc) (s : LQ)
    (info : JSValue) (action : CompAction) (items : list InputItem) :
  represents h l s →
  nullish (get_opt info "inputs") = true →
  isMyCustomAction action "queryLibraryUpdate" = true →
  LibraryQuery.action_inputs action = Ok items →
  "__proto__" ∉ name <$> items →
  ∃ l1 h1 l2 h2,
    LibraryQuery.reduce (LibraryQuery.queryLibraryUpdate info) l h = Ok (l1, h1) ∧
    LibraryQuery.reduce action l1 h1 = Ok (l2, h2) ∧
    LibraryQuery.toJsonValue h2 l2
    = JObj (<["libraryQueryId" := lq_queryId s]>
           (<["libraryQueryRecordId" := lq_recordId s]>
           (<["inputs" := JObj (declared_inputs (spread (lq_params s)) items)]>
            ∅))).
Proof.
  intros Hrep Hn Hmy Hitems Hproto.
  destruct (update_represents h l s (LibraryQuery.queryLibraryUpdate info) []
              Hrep (isMyCustomAction_queryLibraryUpdate info)
              (action_inputs_without_inputs info Hn))
    as (l1 & h1 & chi1 & Hrun1 & _ & Hrep1).
  { by intros ?%elem_of_nil. }
  destruct (update_represents h1 l1 _ action items Hrep1 Hmy Hitems Hproto)
    as (l2 & h2 & chi2 & Hrun2 & _ & Hrep2).
  exists l1, h1, l2, h2. split; [done |]. split; [done |].
  rewrite (toJsonValue_represents _ _ _ Hrep2). unfold serialised. simpl.
  by rewrite declared_inputs_nil, (left_id_L ∅ (∪)).
Qed.

(** X12.  A [queryLibraryUpdate] action whose record has an [inputs] that
    is neither nullish nor an array makes [reduce] throw a type error
    ([inputs.forEach] is not a function). *)
Theorem queryLibraryUpdate_inputs_not_an_array (this : loc) ch ready value
    (h : heap) (info v : JSValue) :
  h !! this = Some (OLibraryQuery ch ready value) →
  get_opt info "inputs" = v →
  nullish v = false →
  (∀ items, v ≠ JArr items) →
  LibraryQuery.reduce (LibraryQuery.queryLibraryUpdate info) this h
  = Err TypeError.
Proof.
  intros Hthis Hv Hn Harr.
  rewrite (reduce_custom_eq (LibraryQuery.queryLibraryUpdate info) this ch
             ready value h (isMyCustomAction_queryLibraryUpdate info) Hthis).
  unfold LibraryQuery.reduce_queryLibraryUpdate.
  destruct (ch !! "inputs") as [i |]; [| done].
  unfold LibraryQuery.action_inputs.
  unfold LibraryQuery.queryLibraryUpdate. simpl. unfold get_opt at 2. simpl.
  rewrite lookup_insert_ne, lookup_insert_eq by done. simpl.
  rewrite Hv. unfold coalesce. rewrite Hn.
  destruct v; try done. by destruct (Harr l).
Qed.

(** X13.  The stored error is never cleared by the arrival of a record: when
    the fetch has failed with [message] and a record then arrives, declaring
    no input named [__proto__], the [error] child still holds [message], and
    the inputs view does not show it: it is the placeholder when the record
    declares no input, and else the array of the property views of the
    children named by the declared inputs. *)
Theorem record_hides_stored_error (h : heap) (l : loc) (s : LQ)
    (message : string) (action : CompAction) (items : list InputItem)
    (info : JSValue) :
  represents h l s →
  truthy (lq_queryId s) = true →
  truthy info = true →
  isMyCustomAction action "queryLibraryUpdate" = true →
  LibraryQuery.action_inputs action = Ok items →
  "__proto__" ∉ name <$> items →
  ∃ l1 h1 l2 h2 o2 ch2 pv2 views,
    LibraryQuery.reduce (LibraryQuery.onErrorCallback message) l h = Ok (l1, h1) ∧
    LibraryQuery.reduce action l1 h1 = Ok (l2, h2) ∧
    h2 !! l2 = Some o2 ∧
    LibraryQuery.child_view h2 (obj_children o2) "error" = Some (JStr message) ∧
    (∃ i2, obj_children o2 !! "inputs" = Some i2 ∧
           h2 !! i2 = Some (OInputsComp ch2 pv2 items)) ∧
    LibraryQuery.getInputsView h2 l2 info
    = Some (if decide (length items = 0)
            then VElem "QueryConfigWrapper" []
                   [ VElem "QueryConfigLabel" [] [];
                     VElem "NoInputsWrapper" []
                       [VText (JStr (trans "queryLibrary.noInput"))] ]
            else VArray views) ∧
    length views = length items ∧
    ∀ i item, items !! i = Some item →
      ∃ c, ch2 !! name item = Some c ∧
        views !! i = Some (VFragment (name item)
          (VPropertyView c (name item) (description item) "bottom")).
Proof.
  intros Hrep Hq Hinfo Hmy Hitems Hproto.
  destruct (onError_represents h l s message Hrep) as (l1 & h1 & Hrun1 & _ & Hrep1).
  destruct (update_represents h1 l1 _ action items Hrep1 Hmy Hitems Hproto)
    as (l2 & h2 & chi2 & Hrun2 & _ & Hrep2).
  pose proof Hrep2 as (ch & cq & cr & i2 & ce & dq & dr & de & Hl2 & _ & _ & _
                       & _ & _ & Hi2 & Hli2 & Hholds2 & He & Hle).
  simpl in Hl2, Hli2, Hle, Hholds2.
  destruct (mapM_renderInput chi2 items) as (views & Hm & Hlen & Hviews).
  { intros item Hin. apply (proj1 Hholds2).
    rewrite declared_inputs_lookup, decide_True; [by eexists |].
    apply list_elem_of_fmap. by exists item. }
  exists l1, h1, l2, h2, (OLibraryQuery ch true (lq_value s)), chi2,
    (lq_params s), views.
  split; [done |]. split; [done |]. split; [done |]. split.
  { unfold LibraryQuery.child_view. simpl. rewrite He. simpl. by rewrite Hle. }
  split; [by exists i2 |].
  split; [| split; [done | done]].
  rewrite (getInputsView_represents _ _ _ info Hrep2). simpl.
  rewrite Hq, Hinfo. simpl. unfold InputsComp.getPropertyView.
  case_decide; [done |]. by rewrite Hm.
Qed.

(** X14.  An edit of an input child is reduced into a new node; it shows in
    [toJsonValue()] only when the node is ready, and before that the node
    keeps serialising as it did before the edit. *)
Theorem input_edit_serialised_when_ready (h : heap) (l : loc) (s : LQ)
    (a : string) (v : JSValue) :
  represents h l s →
  is_Some (lq_inputs s !! a) →
  ∃ l2 h2,
    LibraryQuery.reduce (wrapChildAction "inputs" (changeChildAction a v)) l h
    = Ok (l2, h2) ∧
    LibraryQuery.toJsonValue h2 l2
    = if lq_isReady s
      then JObj (<["libraryQueryId" := lq_queryId s]>
                (<["libraryQueryRecordId" := lq_recordId s]>
                (<["inputs" := JObj (<[a := v]> (lq_inputs s))]> ∅)))
      else LibraryQuery.toJsonValue h l.
Proof.
  intros Hrep Ha.
  destruct (edit_input_represents h l s a v Hrep Ha)
    as (l2 & h2 & chi2 & Hrun & _ & Hrep2).
  exists l2, h2. split; [done |].
  rewrite (toJsonValue_represents _ _ _ Hrep2).
  rewrite (toJsonValue_represents _ _ _ Hrep). unfold serialised. simpl.
  by destruct (lq_isReady s).
Qed.

(** X15.  On mount, a node whose query id is falsy is given the id of the
    first query of the library, when that id is truthy: the effect
    dispatches [changeChildAction("libraryQueryId", id)]; reducing that
    action gives a node whose [libraryQueryId] child holds the id and whose
    record id is unchanged; on that node the effect dispatches nothing more,
    and the fetch effect requests the record of the new id and the node's
    record id when that record id is truthy. *)
Theorem mount_selects_first_query (h : heap) (l : loc) (s : LQ)
    (m mv first : JSValue) (metas : list JSValue) :
  represents h l s →
  truthy (lq_queryId s) = false →
  nullish m = false →
  get m "libraryQueryMetaView" = Some mv →
  get mv "id" = Some first →
  truthy first = true →
  PropertyView.selectFirstEffect (lq_queryId s) (m :: metas)
  = Some (Some (changeChildAction "libraryQueryId" first)) ∧
  ∃ l2 h2 o2,
    LibraryQuery.reduce (changeChildAction "libraryQueryId" first) l h
    = Ok (l2, h2) ∧
    h2 !! l2 = Some o2 ∧
    LibraryQuery.child_view h2 (obj_children o2) "libraryQueryId" = Some first ∧
    LibraryQuery.child_view h2 (obj_children o2) "libraryQueryRecordId"
    = Some (lq_recordId s) ∧
    PropertyView.selectFirstEffect first (m :: metas) = Some None ∧
    PropertyView.fetchEffect first (lq_recordId s)
    = (if truthy (lq_recordId s) then Some (first, lq_recordId s) else None).
Proof.
  intros Hrep Hq Hm Hmv Hid Hfirst.
  destruct (change_queryId_represents h l s first Hrep)
    as (l2 & h2 & Hrun & _ & Hrep2).
  pose proof Hrep2 as (ch & cq & cr & ci & ce & dq & dr & de & Hl2 & _ & Hcq
                       & Hlq & Hcr & Hlr & _).
  simpl in Hl2, Hlq, Hlr.
  assert (Hsel : PropertyView.firstLibraryQueryId (m :: metas) = Some first).
  { unfold PropertyView.firstLibraryQueryId. rewrite Hm, Hmv. simpl. exact Hid. }
  split. { unfold PropertyView.selectFirstEffect. rewrite Hsel. simpl.
           by rewrite Hq, Hfirst. }
  exists l2, h2, (OLibraryQuery ch (lq_isReady s) (lq_value s)).
  split; [done |]. split; [done |].
  split. { unfold LibraryQuery.child_view. simpl. rewrite Hcq. simpl.
           by rewrite Hlq. }
  split. { unfold LibraryQuery.child_view. simpl. rewrite Hcr. simpl.
           by rewrite Hlr. }
  split. { unfold PropertyView.selectFirstEffect. rewrite Hsel. simpl.
           by rewrite Hfirst. }
  unfold PropertyView.fetchEffect. by rewrite Hfirst.
Qed.

End LibraryQueryExtras.

(** * The theorems at concrete inputs *)

Section Examples.
#[local] Existing Instance Example.externals.
#[local] Existing Instance Example.controlDefaults.

(** Switching a populated FIND query to INSERT. *)
Lemma change_discriminator_witness :
  "INSERT" ∈ MongoQuery.CommandOptions.*2 ∧
  ∃ schema next,
    MongoQuery.CommandMap !! "INSERT" = Some schema ∧
    MongoQuery.reduce Example.findQuery (MongoQuery.onChange_Commands "INSERT")
    = Some next ∧
    MongoQuery.compType next = JStr "INSERT" ∧
    MongoQuery.comp next
    = (λ f, (f.1, MongoQuery.control_default f.2)) <$> schema.
Proof.
  assert (Hin : "INSERT" ∈ MongoQuery.CommandOptions.*2)
    by (apply (bool_decide_unpack _); vm_compute; exact I).
  split; [exact Hin |].
  exact (change_discriminator_rebuilds_payload Example.findQuery "INSERT" Hin).
Defined.

(** The action of the command dropdown for UPDATE is a write. *)
Lemma isWrite_partition_witness :
  hasOwn (JObj (<["compType" := JStr "UPDATE"]> (<["comp" := JObj ∅]> ∅)))
    "compType" = Some (JStr "UPDATE") ∧
  MongoQuery.isWrite Example.findQuery
    (changeValueAction
       (JObj (<["compType" := JStr "UPDATE"]> (<["comp" := JObj ∅]> ∅))))
  = Some true.
Proof.
  assert (Hc : hasOwn
            (JObj (<["compType" := JStr "UPDATE"]> (<["comp" := JObj ∅]> ∅)))
            "compType" = Some (JStr "UPDATE")) by reflexivity.
  split; [exact Hc |].
  destruct (isWrite_partitions_commands Example.findQuery _ _ Hc)
    as [(b & Hb & Hiff) _].
  rewrite Hb. f_equal. apply Hiff. simpl. right. left.
Defined.

(** A change to FIND is not a write, even on an INSERT query. *)
Lemma isWrite_action_only_witness :
  (a_value (changeValueAction (JObj {["compType" := JStr "FIND"]})) = None ∨
   ∃ value c,
     a_value (changeValueAction (JObj {["compType" := JStr "FIND"]})) = Some value ∧
     get value "compType" = Some c ∧
     c ∉ JStr <$> ["INSERT"; "UPDATE"; "DELETE"; "RAW"]) ∧
  MongoQuery.isWrite Example.insertQuery
    (changeValueAction (JObj {["compType" := JStr "FIND"]})) = Some false.
Proof.
  assert (Hcases :
    a_value (changeValueAction (JObj {["compType" := JStr "FIND"]})) = None ∨
    ∃ value c,
      a_value (changeValueAction (JObj {["compType" := JStr "FIND"]})) = Some value ∧
      get value "compType" = Some c ∧
      c ∉ JStr <$> ["INSERT"; "UPDATE"; "DELETE"; "RAW"]).
  { right. exists (JObj {["compType" := JStr "FIND"]}), (JStr "FIND").
    split; [reflexivity |]. split; [reflexivity |].
    intros Hin. simpl in Hin.
    repeat (apply elem_of_cons in Hin as [Heq | Hin]; [discriminate Heq |]).
    by apply elem_of_nil in Hin. }
  split; [exact Hcases |].
  exact (proj1 (isWrite_depends_on_action_only Example.insertQuery _ Hcases)).
Defined.

(** Changing the query id of the saved library query keeps its other
    children. *)
Lemma reduce_shares_siblings_witness :
  ∃ o r h',
    Example.savedQuery.2 !! Example.savedQuery.1 = Some o ∧
    LibraryQuery.reduce
      (wrapChildAction "libraryQueryId" (changeValueAction (JStr "q2")))
      Example.savedQuery.1 Example.savedQuery.2 = Ok (r, h') ∧
    ∃ o', h' !! r = Some o' ∧
          o' = with_children o (obj_children o') ∧
          (∀ k', k' ≠ "libraryQueryId" →
                 obj_children o' !! k' = obj_children o !! k') ∧
          (∀ l ol, Example.savedQuery.2 !! l = Some ol → h' !! l = Some ol).
Proof.
  destruct (Example.savedQuery.2 !! Example.savedQuery.1) as [o |] eqn:Hthis;
    [| vm_compute in Hthis; discriminate Hthis].
  destruct (LibraryQuery.reduce
              (wrapChildAction "libraryQueryId" (changeValueAction (JStr "q2")))
              Example.savedQuery.1 Example.savedQuery.2)
    as [[r h'] | e] eqn:Hrun; [| vm_compute in Hrun; discriminate Hrun].
  exists o, r, h'. split; [reflexivity |]. split; [reflexivity |].
  exact (reduce_child_shares_siblings _ _ _ _ _ _ _ Hthis Hrun).
Defined.

(** The node of [Example.editedInputs]: the children [a], edited to ["9"],
    and [b]. *)
Lemma editedInputs_lookup :
  Example.editedInputs.2 !! Example.editedInputs.1
  = Some (OInputsComp (<["a" := 6]> (<["b" := 4]> ∅))
            (JObj (<["a" := JStr "1"]> (<["c" := JStr "3"]> ∅)))
            [Example.item "a" "first"; Example.item "b" "second"]).
Proof. vm_compute. reflexivity. Qed.

(** The edited inputs once the record declares [a] and [c]. *)
Lemma setInputs_rebuilds_children_witness :
  Example.editedInputs.2 !! Example.editedInputs.1
  = Some (OInputsComp (<["a" := 6]> (<["b" := 4]> ∅))
            (JObj (<["a" := JStr "1"]> (<["c" := JStr "3"]> ∅)))
            [Example.item "a" "first"; Example.item "b" "second"]) ∧
  Example.editedInputs.2 !! 6 = Some (OLeaf JSONValueControl (JStr "9")) ∧
  ∃ r h' ch' ca' cc',
    InputsComp.setInputs Example.editedInputs.1
      [Example.item "a" "first"; Example.item "c" "third"]
      Example.editedInputs.2 = Ok (r, h') ∧
    h' !! r = Some (OInputsComp ch'
                      (JObj (<["a" := JStr "1"]> (<["c" := JStr "3"]> ∅)))
                      [Example.item "a" "first"; Example.item "c" "third"]) ∧
    ch' !! "a" = Some ca' ∧ ca' ≠ 6 ∧
    h' !! ca' = Some (OLeaf JSONValueControl (JStr "9")) ∧
    ch' !! "b" = None ∧
    ch' !! "c" = Some cc' ∧
    h' !! cc' = Some (OLeaf JSONValueControl (JStr "3")).
Proof.
  assert (Hleaf : Example.editedInputs.2 !! 6
                  = Some (OLeaf JSONValueControl (JStr "9")))
    by (vm_compute; reflexivity).
  split; [exact editedInputs_lookup |]. split; [exact Hleaf |].
  refine (setInputs_rebuilds_children Example.editedInputs.1
            Example.editedInputs.2 _ _ _
            (Example.item "a" "first") (Example.item "c" "third") "b" 6
            (JStr "9") editedInputs_lookup eq_refl Hleaf _ eq_refl _ _ _ _).
  - exists 4. reflexivity.
  - discriminate.
  - discriminate.
  - discriminate.
  - discriminate.
Defined.

(** C2, as stated, fails: the node 7 has the children [a] at 6, edited to
    ["9"], and [b] at 4; after the keys become [a] and [c] the child for [a]
    is not the existing node 6 but the new node 9, and the child for [c]
    holds the value ["3"] that the node was constructed with, not the default
    of the control. *)
Lemma setInputs_reuse_counterexample :
  Example.editedInputs.2 !! Example.editedInputs.1
  = Some (OInputsComp (<["a" := 6]> (<["b" := 4]> ∅))
            (JObj (<["a" := JStr "1"]> (<["c" := JStr "3"]> ∅)))
            [Example.item "a" "first"; Example.item "b" "second"]) ∧
  Example.editedInputs.2 !! 6 = Some (OLeaf JSONValueControl (JStr "9")) ∧
  InputsComp.setInputs Example.editedInputs.1
    [Example.item "a" "first"; Example.item "c" "third"] Example.editedInputs.2
  = Ok Example.rekeyedInputs ∧
  Example.rekeyedInputs.2 !! Example.rekeyedInputs.1
  = Some (OInputsComp (<["a" := 9]> (<["c" := 8]> ∅))
            (JObj (<["a" := JStr "1"]> (<["c" := JStr "3"]> ∅)))
            [Example.item "a" "first"; Example.item "c" "third"]) ∧
  9 ≠ 6 ∧
  Example.rekeyedInputs.2 !! 8 = Some (OLeaf JSONValueControl (JStr "3")) ∧
  JStr "3" ≠ JSONValueControl_default.
Proof.
  split; [vm_compute; reflexivity |].
  split; [vm_compute; reflexivity |].
  split; [vm_compute; reflexivity |].
  split; [vm_compute; reflexivity |].
  split; [discriminate |].
  split; [vm_compute; reflexivity |].
  discriminate.
Qed.

(** The saved library query with a record that declares exactly its inputs. *)
Lemma toJsonValue_round_trip_witness :
  ("__proto__" ∉ name <$> [Example.item "a" "first"; Example.item "b" "second"]) ∧
  (∀ k, k ∈ name <$> [Example.item "a" "first"; Example.item "b" "second"] ↔
        is_Some ((<["a" := JStr "1"]> (<["b" := JStr "2"]> ∅) : gmap string JSValue) !! k)) ∧
  ∃ l h' l2 h2,
    LibraryQuery.new Example.savedValue [] = Ok (l, h') ∧
    LibraryQuery.toJsonValue h' l = Example.savedValue ∧
    LibraryQuery.reduce
      (LibraryQuery.queryLibraryUpdate
         (dsl_of_inputs [Example.item "a" "first"; Example.item "b" "second"]))
      l h' = Ok (l2, h2) ∧
    LibraryQuery.toJsonValue h2 l2 = Example.savedValue.
Proof.
  assert (Hkeys : ∀ k,
    k ∈ name <$> [Example.item "a" "first"; Example.item "b" "second"] ↔
    is_Some ((<["a" := JStr "1"]> (<["b" := JStr "2"]> ∅) : gmap string JSValue) !! k)).
  { intros k. simpl. split.
    - intros Hin. list_cases Hin; eexists; reflexivity.
    - intros [v Hv].
      destruct (decide (k = "a")) as [-> | Ha]; [left |].
      destruct (decide (k = "b")) as [-> | Hb]; [right; left |].
      rewrite !lookup_insert_ne, lookup_empty in Hv by done. discriminate Hv. }
  split; [apply (bool_decide_unpack _); vm_compute; exact I |].
  split; [exact Hkeys |].
  destruct (toJsonValue_round_trip "q1" "latest"
              (<["a" := JStr "1"]> (<["b" := JStr "2"]> ∅)) [])
    as (l & h' & Hnew & Hjson & Hready).
  destruct (Hready [Example.item "a" "first"; Example.item "b" "second"])
    as (l2 & h2 & Hrun & _ & Hsame).
  { apply (bool_decide_unpack _). vm_compute. exact I. }
  exists l, h', l2, h2. split; [exact Hnew |]. split; [exact Hjson |].
  split; [exact Hrun |]. exact (Hsame Hkeys).
Defined.

(** C4, as stated, fails once the inputs document has arrived: a value saved
    with the inputs [a] and [b] whose record declares only [a] serialises
    without [b]. *)
Lemma toJsonValue_round_trip_counterexample :
  LibraryQuery.new Example.savedValue [] = Ok Example.savedQuery ∧
  LibraryQuery.reduce
    (LibraryQuery.queryLibraryUpdate (dsl_of_inputs [Example.item "a" "first"]))
    Example.savedQuery.1 Example.savedQuery.2 = Ok Example.readyQuery ∧
  LibraryQuery.toJsonValue Example.readyQuery.2 Example.readyQuery.1
  = LibraryQuery_value "q1" "latest" {["a" := JStr "1"]} ∧
  LibraryQuery.toJsonValue Example.readyQuery.2 Example.readyQuery.1
  ≠ Example.savedValue.
Proof.
  assert (Hjson :
    LibraryQuery.toJsonValue Example.readyQuery.2 Example.readyQuery.1
    = LibraryQuery_value "q1" "latest" {["a" := JStr "1"]})
    by (vm_compute; reflexivity).
  split; [vm_compute; reflexivity |].
  split; [vm_compute; reflexivity |].
  split; [exact Hjson |].
  rewrite Hjson. intros Heq.
  apply (f_equal (λ v, get_opt (get_opt v "inputs") "b")) in Heq.
  vm_compute in Heq. discriminate Heq.
Qed.

(** C9, as stated, fails on an action whose value is [null]: the value has no
    [compType], and the call throws instead of answering false. *)
Lemma isWrite_null_value_counterexample :
  a_value (changeValueAction JNull) = Some JNull ∧
  hasOwn JNull "compType" = None ∧
  MongoQuery.isWrite Example.insertQuery (changeValueAction JNull) ≠ Some false.
Proof. split; [reflexivity |]. split; [reflexivity |]. discriminate. Qed.





(** C10.  The guard [!child] misses the names that a plain object inherits.
    A record that declares one input named [__proto__] gives a node without
    a child of that name, and rendering it throws instead of yielding [null];
    the same happens for the name [constructor] on children that have no
    such key, whereas a name that is not inherited, such as [x], yields
    [null]. *)
Theorem getPropertyView_throws_on_inherited_name :
  InputsComp.setInputs Example.emptyInputs.1 [Example.item "__proto__" "d"]
    Example.emptyInputs.2 = Ok Example.protoInputs ∧
  Example.protoInputs.2 !! Example.protoInputs.1
  = Some (OInputsComp ∅ JUndefined [Example.item "__proto__" "d"]) ∧
  (∅ : gmap string loc) !! "__proto__" = None ∧
  InputsComp.getPropertyView ∅ [Example.item "__proto__" "d"] = None ∧
  InputsComp.getPropertyView ∅ [Example.item "constructor" "d"] = None ∧
  InputsComp.getPropertyView ∅ [Example.item "x" "d"] = Some (VArray [VNull]).
Proof.
  split; [vm_compute; reflexivity |].
  split; [vm_compute; reflexivity |].
  split; [reflexivity |].
  split; [vm_compute; reflexivity |].
  split; [vm_compute; reflexivity |].
  vm_compute. reflexivity.
Qed.

End Examples.

(** * Further theorems at concrete inputs *)

Section MoreExamples.
#[local] Existing Instance Example.externals.

Lemma savedQuery_represents :
  ∃ chi, represents Example.savedQuery.2 Example.savedQuery.1
           (Scenario.savedState chi).
Proof.
  destruct (new_represents Example.savedValue []) as (l & h & chi & Hnew & _ & Hrep).
  exists chi. unfold Example.savedQuery, Example.run. rewrite Hnew. exact Hrep.
Qed.

Lemma freshQuery_represents :
  ∃ chi, represents Scenario.freshQuery.2 Scenario.freshQuery.1
           (Scenario.freshState chi).
Proof.
  destruct (new_represents JUndefined []) as (l & h & chi & Hnew & _ & Hrep).
  exists chi. unfold Scenario.freshQuery, Example.run. rewrite Hnew. exact Hrep.
Qed.

Lemma no_proto_a_c :
  "__proto__" ∉ name <$> [Example.item "a" "first"; Example.item "c" "third"].
Proof. apply (bool_decide_unpack _). vm_compute. exact I. Qed.

Lemma no_proto_a :
  "__proto__" ∉ name <$> [Example.item "a" "first"].
Proof. apply (bool_decide_unpack _). vm_compute. exact I. Qed.

(** Declaring [a] and [c] on the edited node. *)
Lemma setInputs_serialises_declared_witness :
  Example.editedInputs.2 !! Example.editedInputs.1
  = Some (OInputsComp (<["a" := 6]> (<["b" := 4]> ∅))
            (JObj (<["a" := JStr "1"]> (<["c" := JStr "3"]> ∅)))
            [Example.item "a" "first"; Example.item "b" "second"]) ∧
  ("__proto__" ∉ name <$> [Example.item "a" "first"; Example.item "c" "third"]) ∧
  ∃ r h' ch',
    InputsComp.setInputs Example.editedInputs.1
      [Example.item "a" "first"; Example.item "c" "third"]
      Example.editedInputs.2 = Ok (r, h') ∧
    h' !! r = Some (OInputsComp ch'
                      (JObj (<["a" := JStr "1"]> (<["c" := JStr "3"]> ∅)))
                      [Example.item "a" "first"; Example.item "c" "third"]) ∧
    (∀ k, is_Some (ch' !! k) ↔
          k ∈ name <$> [Example.item "a" "first"; Example.item "c" "third"]) ∧
    InputsComp_toJsonValue h' r
    = JObj (<["a" := JStr "9"]> (<["c" := JStr "3"]> ∅)).
Proof.
  split; [exact editedInputs_lookup |]. split; [exact no_proto_a_c |].
  destruct (setInputs_serialises_declared Example.editedInputs.1
              [Example.item "a" "first"; Example.item "c" "third"]
              Example.editedInputs.2 _ _ _ editedInputs_lookup no_proto_a_c)
    as (r & h' & ch' & Hrun & Hr & Hdom & Hjson).
  exists r, h', ch'. split; [exact Hrun |]. split; [exact Hr |].
  split; [exact Hdom |]. rewrite Hjson. vm_compute. reflexivity.
Defined.

(** Declaring [a] and [c] twice. *)
Lemma setInputs_idempotent_witness :
  Example.editedInputs.2 !! Example.editedInputs.1
  = Some (OInputsComp (<["a" := 6]> (<["b" := 4]> ∅))
            (JObj (<["a" := JStr "1"]> (<["c" := JStr "3"]> ∅)))
            [Example.item "a" "first"; Example.item "b" "second"]) ∧
  ("__proto__" ∉ name <$> [Example.item "a" "first"; Example.item "c" "third"]) ∧
  ∃ r1 h1 r2 h2,
    InputsComp.setInputs Example.editedInputs.1
      [Example.item "a" "first"; Example.item "c" "third"]
      Example.editedInputs.2 = Ok (r1, h1) ∧
    InputsComp.setInputs r1
      [Example.item "a" "first"; Example.item "c" "third"] h1 = Ok (r2, h2) ∧
    InputsComp_toJsonValue h2 r2 = InputsComp_toJsonValue h1 r1.
Proof.
  split; [exact editedInputs_lookup |]. split; [exact no_proto_a_c |].
  exact (setInputs_idempotent _ _ _ _ _ _ editedInputs_lookup no_proto_a_c).
Defined.

(** The same names, reordered, repeated and described otherwise. *)
Lemma setInputs_names_only_witness :
  Example.editedInputs.2 !! Example.editedInputs.1
  = Some (OInputsComp (<["a" := 6]> (<["b" := 4]> ∅))
            (JObj (<["a" := JStr "1"]> (<["c" := JStr "3"]> ∅)))
            [Example.item "a" "first"; Example.item "b" "second"]) ∧
  ("__proto__" ∉ name <$> [Example.item "a" "first"; Example.item "c" "third"]) ∧
  (∀ k, k ∈ name <$> [Example.item "a" "first"; Example.item "c" "third"] ↔
        k ∈ name <$> [Example.item "c" ""; Example.item "a" "";
                       Example.item "c" "again"]) ∧
  ∃ r1 h1 r2 h2,
    InputsComp.setInputs Example.editedInputs.1
      [Example.item "a" "first"; Example.item "c" "third"]
      Example.editedInputs.2 = Ok (r1, h1) ∧
    InputsComp.setInputs Example.editedInputs.1
      [Example.item "c" ""; Example.item "a" ""; Example.item "c" "again"]
      Example.editedInputs.2 = Ok (r2, h2) ∧
    InputsComp_toJsonValue h1 r1 = InputsComp_toJsonValue h2 r2.
Proof.
  assert (Hsame : ∀ k,
    k ∈ name <$> [Example.item "a" "first"; Example.item "c" "third"] ↔
    k ∈ name <$> [Example.item "c" ""; Example.item "a" "";
                   Example.item "c" "again"]).
  { intros k. simpl. split; intros Hin; list_cases Hin;
      apply (bool_decide_unpack _); vm_compute; exact I. }
  split; [exact editedInputs_lookup |]. split; [exact no_proto_a_c |].
  split; [exact Hsame |].
  exact (setInputs_depends_on_names_only _ _ _ _ _ _ _ editedInputs_lookup
           no_proto_a_c Hsame).
Defined.

(** The edited input [a] is dropped, then declared again: it holds the
    construction-time value. *)
Lemma setInputs_forgets_dropped_edit_witness :
  Example.editedInputs.2 !! Example.editedInputs.1
  = Some (OInputsComp (<["a" := 6]> (<["b" := 4]> ∅))
            (JObj (<["a" := JStr "1"]> (<["c" := JStr "3"]> ∅)))
            [Example.item "a" "first"; Example.item "b" "second"]) ∧
  ("__proto__" ∉ name <$> [Example.item "b" "second"]) ∧
  ("__proto__" ∉ name <$> [Example.item "a" "first"]) ∧
  ("a" ∉ name <$> [Example.item "b" "second"]) ∧
  ("a" ∈ name <$> [Example.item "a" "first"]) ∧
  ∃ r1 h1 r2 h2 ch2 ca,
    InputsComp.setInputs Example.editedInputs.1 [Example.item "b" "second"]
      Example.editedInputs.2 = Ok (r1, h1) ∧
    InputsComp.setInputs r1 [Example.item "a" "first"] h1 = Ok (r2, h2) ∧
    h2 !! r2 = Some (OInputsComp ch2
                       (JObj (<["a" := JStr "1"]> (<["c" := JStr "3"]> ∅)))
                       [Example.item "a" "first"]) ∧
    ch2 !! "a" = Some ca ∧
    h2 !! ca = Some (OLeaf JSONValueControl (JStr "1")).
Proof.
  assert (Hpb : "__proto__" ∉ name <$> [Example.item "b" "second"])
    by (apply (bool_decide_unpack _); vm_compute; exact I).
  assert (Hout : "a" ∉ name <$> [Example.item "b" "second"])
    by (apply (bool_decide_unpack _); vm_compute; exact I).
  assert (Hin : "a" ∈ name <$> [Example.item "a" "first"])
    by (apply (bool_decide_unpack _); vm_compute; exact I).
  split; [exact editedInputs_lookup |]. split; [exact Hpb |].
  split; [exact no_proto_a |]. split; [exact Hout |]. split; [exact Hin |].
  exact (setInputs_forgets_dropped_edit _ _ _ "a" _ _ _ _
           editedInputs_lookup Hpb no_proto_a Hout Hin).
Defined.

(** Declaring no inputs on the edited node. *)
Lemma setInputs_empty_witness :
  Example.editedInputs.2 !! Example.editedInputs.1
  = Some (OInputsComp (<["a" := 6]> (<["b" := 4]> ∅))
            (JObj (<["a" := JStr "1"]> (<["c" := JStr "3"]> ∅)))
            [Example.item "a" "first"; Example.item "b" "second"]) ∧
  ∃ r h',
    InputsComp.setInputs Example.editedInputs.1 [] Example.editedInputs.2
    = Ok (r, h') ∧
    h' !! r = Some (OInputsComp ∅
                      (JObj (<["a" := JStr "1"]> (<["c" := JStr "3"]> ∅))) []) ∧
    InputsComp_toJsonValue h' r = JObj ∅ ∧
    InputsComp.getPropertyView ∅ []
    = Some (VElem "QueryConfigWrapper" []
              [ VElem "QueryConfigLabel" [] [];
                VElem "NoInputsWrapper" []
                  [VText (JStr "queryLibrary.noInput")] ]).
Proof.
  split; [exact editedInputs_lookup |].
  exact (setInputs_empty_renders_placeholder _ _ _ _ _ editedInputs_lookup).
Defined.

(** The second of the inputs [a] and [c]. *)
Lemma setInputs_renders_every_input_witness :
  Example.editedInputs.2 !! Example.editedInputs.1
  = Some (OInputsComp (<["a" := 6]> (<["b" := 4]> ∅))
            (JObj (<["a" := JStr "1"]> (<["c" := JStr "3"]> ∅)))
            [Example.item "a" "first"; Example.item "b" "second"]) ∧
  ("__proto__" ∉ name <$> [Example.item "a" "first"; Example.item "c" "third"]) ∧
  [Example.item "a" "first"; Example.item "c" "third"] !! 1
  = Some (Example.item "c" "third") ∧
  ∃ r h' ch' c v items,
    InputsComp.setInputs Example.editedInputs.1
      [Example.item "a" "first"; Example.item "c" "third"]
      Example.editedInputs.2 = Ok (r, h') ∧
    h' !! r = Some (OInputsComp ch'
                      (JObj (<["a" := JStr "1"]> (<["c" := JStr "3"]> ∅)))
                      [Example.item "a" "first"; Example.item "c" "third"]) ∧
    ch' !! "c" = Some c ∧
    h' !! c = Some (OLeaf JSONValueControl v) ∧
    InputsComp.getPropertyView ch'
      [Example.item "a" "first"; Example.item "c" "third"]
    = Some (VArray items) ∧
    length items = 2 ∧
    items !! 1
    = Some (VFragment "c" (VPropertyView c "c" (JStr "third") "bottom")).
Proof.
  split; [exact editedInputs_lookup |]. split; [exact no_proto_a_c |].
  split; [reflexivity |].
  exact (setInputs_renders_every_input _
           [Example.item "a" "first"; Example.item "c" "third"] _ _ _ _
           1 (Example.item "c" "third") editedInputs_lookup no_proto_a_c
           eq_refl).
Defined.

(** The record of [q1] arrives at the saved library query. *)
Lemma queryLibraryUpdate_serialises_declared_witness :
  ∃ chi,
    represents Example.savedQuery.2 Example.savedQuery.1 (Scenario.savedState chi) ∧
    isMyCustomAction (LibraryQuery.queryLibraryUpdate Scenario.record)
      "queryLibraryUpdate" = true ∧
    LibraryQuery.action_inputs (LibraryQuery.queryLibraryUpdate Scenario.record)
    = Ok [Example.item "a" "first"] ∧
    ("__proto__" ∉ name <$> [Example.item "a" "first"]) ∧
    ∃ l2 h2 ch2,
      LibraryQuery.reduce (LibraryQuery.queryLibraryUpdate Scenario.record)
        Example.savedQuery.1 Example.savedQuery.2 = Ok (l2, h2) ∧
      h2 !! l2 = Some (OLibraryQuery ch2 true Example.savedValue) ∧
      LibraryQuery.toJsonValue h2 l2
      = JObj (<["libraryQueryId" := JStr "q1"]>
             (<["libraryQueryRecordId" := JStr "latest"]>
             (<["inputs" := JObj {["a" := JStr "1"]}]> ∅))).
Proof.
  destruct savedQuery_represents as [chi Hrep]. exists chi.
  split; [exact Hrep |]. split; [reflexivity |].
  split; [exact (action_inputs_queryLibraryUpdate _) |].
  split; [exact no_proto_a |].
  exact (queryLibraryUpdate_serialises_declared _ _ _
           (LibraryQuery.queryLibraryUpdate Scenario.record)
           [Example.item "a" "first"] Hrep eq_refl
           (action_inputs_queryLibraryUpdate _) no_proto_a).
Defined.

(** The update dispatched while the record store is empty. *)
Lemma queryLibraryUpdate_without_record_witness :
  ∃ chi,
    represents Example.savedQuery.2 Example.savedQuery.1 (Scenario.savedState chi) ∧
    nullish (get_opt JUndefined "inputs") = true ∧
    ∃ l2 h2 ch2 i2,
      LibraryQuery.reduce (LibraryQuery.queryLibraryUpdate JUndefined)
        Example.savedQuery.1 Example.savedQuery.2 = Ok (l2, h2) ∧
      h2 !! l2 = Some (OLibraryQuery ch2 true Example.savedValue) ∧
      ch2 !! "inputs" = Some i2 ∧
      h2 !! i2 = Some (OInputsComp ∅
                         (JObj (<["a" := JStr "1"]> (<["b" := JStr "2"]> ∅))) []) ∧
      LibraryQuery.toJsonValue h2 l2
      = JObj (<["libraryQueryId" := JStr "q1"]>
             (<["libraryQueryRecordId" := JStr "latest"]>
             (<["inputs" := JObj ∅]> ∅))).
Proof.
  destruct savedQuery_represents as [chi Hrep]. exists chi.
  split; [exact Hrep |]. split; [reflexivity |].
  exact (queryLibraryUpdate_without_record _ _ _ JUndefined Hrep eq_refl).
Defined.

(** The update without a record, then the record of [q1]. *)
Lemma queryLibraryUpdate_after_empty_update_witness :
  ∃ chi,
    represents Example.savedQuery.2 Example.savedQuery.1 (Scenario.savedState chi) ∧
    nullish (get_opt JUndefined "inputs") = true ∧
    isMyCustomAction (LibraryQuery.queryLibraryUpdate Scenario.record)
      "queryLibraryUpdate" = true ∧
    LibraryQuery.action_inputs (LibraryQuery.queryLibraryUpdate Scenario.record)
    = Ok [Example.item "a" "first"] ∧
    ("__proto__" ∉ name <$> [Example.item "a" "first"]) ∧
    ∃ l1 h1 l2 h2,
      LibraryQuery.reduce (LibraryQuery.queryLibraryUpdate JUndefined)
        Example.savedQuery.1 Example.savedQuery.2 = Ok (l1, h1) ∧
      LibraryQuery.reduce (LibraryQuery.queryLibraryUpdate Scenario.record) l1 h1
      = Ok (l2, h2) ∧
      LibraryQuery.toJsonValue h2 l2
      = JObj (<["libraryQueryId" := JStr "q1"]>
             (<["libraryQueryRecordId" := JStr "latest"]>
             (<["inputs" := JObj {["a" := JStr "1"]}]> ∅))).
Proof.
  destruct savedQuery_represents as [chi Hrep]. exists chi.
  split; [exact Hrep |]. split; [reflexivity |]. split; [reflexivity |].
  split; [exact (action_inputs_queryLibraryUpdate _) |].
  split; [exact no_proto_a |].
  exact (queryLibraryUpdate_after_empty_update _ _ _ JUndefined
           (LibraryQuery.queryLibraryUpdate Scenario.record)
           [Example.item "a" "first"] Hrep eq_refl eq_refl
           (action_inputs_queryLibraryUpdate _) no_proto_a).
Defined.

(** A record whose [inputs] is a string. *)
Lemma queryLibraryUpdate_inputs_not_an_array_witness :
  (∃ ch, Example.savedQuery.2 !! Example.savedQuery.1
         = Some (OLibraryQuery ch false Example.savedValue)) ∧
  get_opt (JObj {["inputs" := JStr "a"]}) "inputs" = JStr "a" ∧
  nullish (JStr "a") = false ∧
  (∀ items, JStr "a" ≠ JArr items) ∧
  LibraryQuery.reduce
    (LibraryQuery.queryLibraryUpdate (JObj {["inputs" := JStr "a"]}))
    Example.savedQuery.1 Example.savedQuery.2 = Err TypeError.
Proof.
  destruct savedQuery_represents as [chi Hrep].
  pose proof Hrep as (ch & cq & cr & ci & ce & dq & dr & de & Hl & _).
  simpl in Hl.
  assert (Harr : ∀ items, JStr "a" ≠ JArr items) by (intros items; discriminate).
  split; [by exists ch |]. split; [reflexivity |]. split; [reflexivity |].
  split; [exact Harr |].
  exact (queryLibraryUpdate_inputs_not_an_array _ _ _ _ _
           (JObj {["inputs" := JStr "a"]}) (JStr "a") Hl eq_refl eq_refl Harr).
Defined.

(** The fetch fails, then the record of [q1] arrives. *)
Lemma record_hides_stored_error_witness :
  ∃ chi,
    represents Example.savedQuery.2 Example.savedQuery.1 (Scenario.savedState chi) ∧
    truthy (JStr "q1") = true ∧
    truthy Scenario.record = true ∧
    isMyCustomAction (LibraryQuery.queryLibraryUpdate Scenario.record)
      "queryLibraryUpdate" = true ∧
    LibraryQuery.action_inputs (LibraryQuery.queryLibraryUpdate Scenario.record)
    = Ok [Example.item "a" "first"] ∧
    ("__proto__" ∉ name <$> [Example.item "a" "first"]) ∧
    ∃ l1 h1 l2 h2 o2 ch2 pv2 views,
      LibraryQuery.reduce (LibraryQuery.onErrorCallback "not found")
        Example.savedQuery.1 Example.savedQuery.2 = Ok (l1, h1) ∧
      LibraryQuery.reduce (LibraryQuery.queryLibraryUpdate Scenario.record) l1 h1
      = Ok (l2, h2) ∧
      h2 !! l2 = Some o2 ∧
      LibraryQuery.child_view h2 (obj_children o2) "error"
      = Some (JStr "not found") ∧
      (∃ i2, obj_children o2 !! "inputs" = Some i2 ∧
             h2 !! i2 = Some (OInputsComp ch2 pv2 [Example.item "a" "first"])) ∧
      LibraryQuery.getInputsView h2 l2 Scenario.record = Some (VArray views) ∧
      length views = 1 ∧
      ∀ i item, [Example.item "a" "first"] !! i = Some item →
        ∃ c, ch2 !! name item = Some c ∧
          views !! i = Some (VFragment (name item)
            (VPropertyView c (name item) (description item) "bottom")).
Proof.
  destruct savedQuery_represents as [chi Hrep]. exists chi.
  split; [exact Hrep |]. split; [reflexivity |]. split; [reflexivity |].
  split; [reflexivity |]. split; [exact (action_inputs_queryLibraryUpdate _) |].
  split; [exact no_proto_a |].
  exact (record_hides_stored_error _ _ _ "not found"
           (LibraryQuery.queryLibraryUpdate Scenario.record)
           [Example.item "a" "first"] Scenario.record Hrep
           eq_refl eq_refl eq_refl (action_inputs_queryLibraryUpdate _)
           no_proto_a).
Defined.

(** Editing the input [a] of the saved library query, which is not ready. *)
Lemma input_edit_serialised_when_ready_witness :
  ∃ chi,
    represents Example.savedQuery.2 Example.savedQuery.1 (Scenario.savedState chi) ∧
    is_Some (lq_inputs (Scenario.savedState chi) !! "a") ∧
    ∃ l2 h2,
      LibraryQuery.reduce
        (wrapChildAction "inputs" (changeChildAction "a" (JStr "9")))
        Example.savedQuery.1 Example.savedQuery.2 = Ok (l2, h2) ∧
      LibraryQuery.toJsonValue h2 l2
      = LibraryQuery.toJsonValue Example.savedQuery.2 Example.savedQuery.1.
Proof.
  destruct savedQuery_represents as [chi Hrep]. exists chi.
  assert (Ha : is_Some (lq_inputs (Scenario.savedState chi) !! "a"))
    by (exists (JStr "1"); reflexivity).
  split; [exact Hrep |]. split; [exact Ha |].
  exact (input_edit_serialised_when_ready _ _ _ "a" (JStr "9") Hrep Ha).
Defined.

(** Mounting a library query without an id in a library that has [q1]. *)
Lemma mount_selects_first_query_witness :
  ∃ chi,
    represents Scenario.freshQuery.2 Scenario.freshQuery.1
      (Scenario.freshState chi) ∧
    truthy (JStr "") = false ∧
    nullish Scenario.libraryMeta = false ∧
    get Scenario.libraryMeta "libraryQueryMetaView"
    = Some (JObj (<["id" := JStr "q1"]> (<["name" := JStr "orders"]> ∅))) ∧
    get (JObj (<["id" := JStr "q1"]> (<["name" := JStr "orders"]> ∅))) "id"
    = Some (JStr "q1") ∧
    truthy (JStr "q1") = true ∧
    PropertyView.selectFirstEffect (JStr "") [Scenario.libraryMeta]
    = Some (Some (changeChildAction "libraryQueryId" (JStr "q1"))) ∧
    ∃ l2 h2 o2,
      LibraryQuery.reduce (changeChildAction "libraryQueryId" (JStr "q1"))
        Scenario.freshQuery.1 Scenario.freshQuery.2 = Ok (l2, h2) ∧
      h2 !! l2 = Some o2 ∧
      LibraryQuery.child_view h2 (obj_children o2) "libraryQueryId"
      = Some (JStr "q1") ∧
      LibraryQuery.child_view h2 (obj_children o2) "libraryQueryRecordId"
      = Some (JStr "latest") ∧
      PropertyView.selectFirstEffect (JStr "q1") [Scenario.libraryMeta]
      = Some None ∧
      PropertyView.fetchEffect (JStr "q1") (JStr "latest")
      = Some (JStr "q1", JStr "latest").
Proof.
  destruct freshQuery_represents as [chi Hrep]. exists chi.
  split; [exact Hrep |]. split; [reflexivity |]. split; [reflexivity |].
  split; [reflexivity |]. split; [reflexivity |]. split; [reflexivity |].
  exact (mount_selects_first_query _ _ _ Scenario.libraryMeta _ (JStr "q1") []
           Hrep eq_refl eq_refl eq_refl eq_refl eq_refl).
Defined.

End MoreExamples.
